(** * Buffer pool manager of scu_db: a shallow embedding and its properties

    The development follows [src/buffer/buffer_pool_manager.cpp].  A frame
    pointer [Page *] into the array [pages_] is the index of the frame; the
    pool is a record of the five members the C++ object owns; every public
    operation is a function from the pool before the call to an [outcome]:
    the returned value together with the pool after the call, or the failed
    [assert] that stopped the process.  The latch held by every operation
    makes the operations atomic, so a sequential model of each is enough.

    [page_id_t] is a 32-bit signed integer and [pin_count_] an [int]; both
    are kept in [Z].  Page ids are only stored and compared.  The single
    arithmetic on [pin_count_] is [++] and [--]; leaving the range of [int]
    would take 2^31 outstanding pins on one page. *)

From stdpp Require Import base decidable option list gmap.
From Stdlib Require Import ZArith.
From Stdlib.Strings Require Import Byte.

(** ** Collaborators that the pool manager uses *)

(** Modelled from the spec: the constant [INVALID_PAGE_ID] of
    [common/config.h], the reserved sentinel meaning "unassigned". *)
Definition INVALID_PAGE_ID : Z := (-1)%Z.

(** Modelled from the spec: the class [Page] ([page/page.h]), a frame with
    its id, pin count, dirty flag and fixed-size buffer. *)
Record Page : Type := mkPage {
  page_id_ : Z;
  pin_count_ : Z;
  is_dirty_ : bool;
  data_ : list byte
}.

(** Modelled from the spec: the accessors of [Page]. *)
Definition GetPageId (p : Page) : Z := page_id_ p.
Definition GetPinCount (p : Page) : Z := pin_count_ p.

(** Modelled from the spec: [ResetMemory] zeroes the frame contents; the
    buffer keeps its size, the metadata is left alone. *)
Definition ResetMemory (p : Page) : Page :=
  mkPage (page_id_ p) (pin_count_ p) (is_dirty_ p)
         (replicate (length (data_ p)) x00).

(** Modelled from the spec: a frame as the constructor of [Page] leaves
    it, unassigned, unpinned, clean and zeroed. *)
Definition Page_new (page_size : nat) : Page :=
  mkPage INVALID_PAGE_ID 0 false (replicate page_size x00).

Global Instance Page_inhabited : Inhabited Page := populate (Page_new 0).

(** The calls received by the disk manager, oldest first. *)
Inductive disk_call : Type :=
  | CallReadPage (page_id : Z)
  | CallWritePage (page_id : Z) (buf : list byte)
  | CallAllocatePage (page_id : Z)
  | CallDeallocatePage (page_id : Z).

(** The disk collaborator ([disk/disk_manager.h]), which is not part of
    the sources at hand.  Besides its contents and its counter of ids, the
    model keeps the list of the calls it has received. *)
Module DiskManager.

(** Modelled from the spec: the state of the disk collaborator, "a page is
    [page_size] bytes identified by an integer id". *)
Record t : Type := mk {
  contents : gmap Z (list byte);
  next_page_id_ : Z;
  calls : list disk_call
}.

(** Modelled from the spec: [ReadPage(id, buffer)] "fills buffer with
    [page_size] bytes for [id]", here what was last written for the id,
    padded with zeros or cut to the size of the buffer. *)
Definition ReadPage (page_id : Z) (buf : list byte) (d : t) : list byte * t :=
  (take (length buf)
        (default [] (contents d !! page_id) ++ replicate (length buf) x00),
   mk (contents d) (next_page_id_ d) (calls d ++ [CallReadPage page_id])).

(** Modelled from the spec: [WritePage(id, buffer)] "persists buffer for
    [id]". *)
Definition WritePage (page_id : Z) (buf : list byte) (d : t) : t :=
  mk (<[page_id := buf]> (contents d)) (next_page_id_ d)
     (calls d ++ [CallWritePage page_id buf]).

(** Modelled from the spec: [AllocatePage()] "returns a fresh unused
    logical id", the next value of a counter. *)
Definition AllocatePage (d : t) : Z * t :=
  (next_page_id_ d,
   mk (contents d) (next_page_id_ d + 1)
      (calls d ++ [CallAllocatePage (next_page_id_ d)])).

(** Modelled from the spec: [DeallocatePage(id)] "releases a logical id";
    the model takes note of the request. *)
Definition DeallocatePage (page_id : Z) (d : t) : t :=
  mk (contents d) (next_page_id_ d) (calls d ++ [CallDeallocatePage page_id]).

(** A disk on which nothing was written and whose first id is 0. *)
Definition empty : t := mk ∅ 0 [].

End DiskManager.

(** [LRUReplacer<Page *>], of which only the declaration
    ([buffer/lru_replacer.h]) is at hand.  The tracked frames are listed
    from the least to the most recently inserted. *)
Module LRUReplacer.

(** Modelled from the spec: [Insert(frame)] marks the frame eligible at
    the most-recently-used position, and is a no-op on a tracked frame. *)
Definition Insert (value : nat) (r : list nat) : list nat :=
  if decide (value ∈ r) then r else r ++ [value].

(** Modelled from the spec: [Victim()] removes and returns the
    least-recently-used tracked frame, or nothing when none is tracked. *)
Definition Victim (r : list nat) : option (nat * list nat) :=
  match r with
  | [] => None
  | value :: r' => Some (value, r')
  end.

(** Modelled from the spec: [Erase(frame)] removes the frame from
    tracking if present and is safe on an untracked frame. *)
Definition Erase (value : nat) (r : list nat) : bool * list nat :=
  if decide (value ∈ r) then (true, filter (λ x, x ≠ value) r) else (false, r).

(** Modelled from the spec: [Size()], the count of tracked frames. *)
Definition Size (r : list nat) : nat := length r.

End LRUReplacer.

(** [ExtendibleHash<page_id_t, Page *>], the page table, used by the pool
    manager as an associative index. *)
Module ExtendibleHash.

(** Modelled from the spec: [Find(id)], the frame or absent. *)
Definition Find (key : Z) (h : gmap Z nat) : option nat := h !! key.

(** Modelled from the spec: [Insert(id, frame)]; keys are unique. *)
Definition Insert (key : Z) (value : nat) (h : gmap Z nat) : gmap Z nat :=
  <[key := value]> h.

(** Modelled from the spec: [Remove(id)]. *)
Definition Remove (key : Z) (h : gmap Z nat) : gmap Z nat := delete key h.

End ExtendibleHash.

(** ** The pool *)

Record BufferPoolManager : Type := mkBPM {
  pages_ : list Page;
  page_table_ : gmap Z nat;
  replacer_ : list nat;
  free_list_ : list nat;
  disk_manager_ : DiskManager.t
}.

Definition set_pages (ps : list Page) (s : BufferPoolManager) :=
  mkBPM ps (page_table_ s) (replacer_ s) (free_list_ s) (disk_manager_ s).
Definition set_page_table (h : gmap Z nat) (s : BufferPoolManager) :=
  mkBPM (pages_ s) h (replacer_ s) (free_list_ s) (disk_manager_ s).
Definition set_replacer (r : list nat) (s : BufferPoolManager) :=
  mkBPM (pages_ s) (page_table_ s) r (free_list_ s) (disk_manager_ s).
Definition set_free_list (l : list nat) (s : BufferPoolManager) :=
  mkBPM (pages_ s) (page_table_ s) (replacer_ s) l (disk_manager_ s).
Definition set_disk (d : DiskManager.t) (s : BufferPoolManager) :=
  mkBPM (pages_ s) (page_table_ s) (replacer_ s) (free_list_ s) d.

(** [*target]: the frame a pointer designates.  The pointers the pool
    keeps all designate frames of the array ([pool_inv] below); on an
    index outside the array [page_at] yields a blank frame and
    [store_page] does nothing. *)
Definition page_at (s : BufferPoolManager) (target : nat) : Page :=
  pages_ s !!! target.

(** [*target = p]. *)
Definition store_page (target : nat) (p : Page) (s : BufferPoolManager) :=
  set_pages (<[target := p]> (pages_ s)) s.

(** The constructor: [pool_size] frames, all of them on the free list in
    the order of the array. *)
Definition BufferPoolManager_new (pool_size page_size : nat)
    (disk : DiskManager.t) : BufferPoolManager :=
  mkBPM (replicate pool_size (Page_new page_size)) ∅ [] (seq 0 pool_size) disk.

(** ** Outcomes *)

(** [assert] is taken as compiled in: a failed assertion ends the process,
    and the operation has no outcome but the assertion that failed. *)

Inductive failure : Type :=
  | AssertPageId     (* assert(target->GetPageId() == INVALID_PAGE_ID) *)
  | AssertPinCount   (* assert(target->GetPinCount() == 0) *)
  | NullVictim.      (* target still nullptr after replacer_->Victim(target) *)

Inductive outcome (A : Type) : Type :=
  | Ret (a : A) (s : BufferPoolManager)
  | Abort (f : failure).
Arguments Ret {A} a s.
Arguments Abort {A} f.

Definition bind {A B : Type} (o : outcome A)
    (k : A → BufferPoolManager → outcome B) : outcome B :=
  match o with
  | Ret a s => k a s
  | Abort f => Abort f
  end.

Notation "'call' ( x , s ) := o 'in' k" :=
  (bind o (λ x s, k))
  (at level 10, x name, s name, o at level 100, k at level 200,
   format "'[v' 'call'  ( x ,  s )  :=  o  'in' '/' k ']'").

(** ** The operations *)

(** Lines 41-67: the frame to recycle, from the free list first and from
    the replacer otherwise; [None] is the [nullptr] of line 52. *)
Definition GetVictimPage (s : BufferPoolManager) : outcome (option nat) :=
  match free_list_ s with
  | [] =>
      if decide (LRUReplacer.Size (replacer_ s) = 0) then Ret None s
      else
        match LRUReplacer.Victim (replacer_ s) with
        | None => Abort NullVictim
        | Some (target, r) =>
            let s := set_replacer r s in
            if decide (GetPinCount (page_at s target) = 0%Z)
            then Ret (Some target) s
            else Abort AssertPinCount
        end
  | target :: rest =>
      let s := set_free_list rest s in
      if decide (GetPageId (page_at s target) = INVALID_PAGE_ID) then
        if decide (GetPinCount (page_at s target) = 0%Z)
        then Ret (Some target) s
        else Abort AssertPinCount
      else Abort AssertPageId
  end.

(** The write-back of lines 98-100 and 212-214. *)
Definition write_back_if_dirty (target : nat) (s : BufferPoolManager) :=
  let p := page_at s target in
  if is_dirty_ p
  then set_disk (DiskManager.WritePage (GetPageId p) (data_ p) (disk_manager_ s)) s
  else s.

(** Lines 82-113: a hit pins the frame and takes it out of the replacer; a
    miss recycles the victim frame for [page_id]. *)
Definition FetchPage (page_id : Z) (s : BufferPoolManager)
    : outcome (option nat) :=
  match ExtendibleHash.Find page_id (page_table_ s) with
  | Some targetPtr =>
      let p := page_at s targetPtr in
      let s := store_page targetPtr
                 (mkPage (page_id_ p) (pin_count_ p + 1) (is_dirty_ p) (data_ p)) s in
      let s := set_replacer (LRUReplacer.Erase targetPtr (replacer_ s)).2 s in
      Ret (Some targetPtr) s
  | None =>
      call (victim, s) := GetVictimPage s in
      match victim with
      | None => Ret None s
      | Some targetPtr =>
          let s := write_back_if_dirty targetPtr s in
          let p := page_at s targetPtr in
          let s := set_page_table
                     (ExtendibleHash.Remove (GetPageId p) (page_table_ s)) s in
          let s := set_page_table
                     (ExtendibleHash.Insert page_id targetPtr (page_table_ s)) s in
          let '(buf, d) := DiskManager.ReadPage page_id (data_ p) (disk_manager_ s) in
          let s := set_disk d s in
          let s := store_page targetPtr (mkPage page_id 1 false buf) s in
          Ret (Some targetPtr) s
      end
  end.

(** Lines 121-139. *)
Definition UnpinPage (page_id : Z) (is_dirty : bool) (s : BufferPoolManager)
    : outcome bool :=
  match ExtendibleHash.Find page_id (page_table_ s) with
  | None => Ret false s
  | Some targetPtr =>
      let p := page_at s targetPtr in
      let p := mkPage (page_id_ p) (pin_count_ p) is_dirty (data_ p) in
      let s := store_page targetPtr p s in
      if decide (GetPinCount p ≤ 0)%Z then Ret false s
      else
        let p := mkPage (page_id_ p) (pin_count_ p - 1) (is_dirty_ p) (data_ p) in
        let s := store_page targetPtr p s in
        let s := if decide (pin_count_ p = 0%Z)
                 then set_replacer (LRUReplacer.Insert targetPtr (replacer_ s)) s
                 else s in
        Ret true s
  end.

(** Lines 147-164. *)
Definition FlushPage (page_id : Z) (s : BufferPoolManager) : outcome bool :=
  match ExtendibleHash.Find page_id (page_table_ s) with
  | None => Ret false s
  | Some targetPtr =>
      let p := page_at s targetPtr in
      if decide (page_id_ p = INVALID_PAGE_ID) then Ret false s
      else if is_dirty_ p then
        let s := set_disk (DiskManager.WritePage page_id (data_ p)
                             (disk_manager_ s)) s in
        let s := store_page targetPtr
                   (mkPage (page_id_ p) (pin_count_ p) false (data_ p)) s in
        Ret true s
      else Ret true s
  end.

(** Lines 175-193. *)
Definition DeletePage (page_id : Z) (s : BufferPoolManager) : outcome bool :=
  match ExtendibleHash.Find page_id (page_table_ s) with
  | Some targetPtr =>
      let p := page_at s targetPtr in
      if decide (GetPinCount p > 0)%Z then Ret false s
      else
        let s := set_replacer (LRUReplacer.Erase targetPtr (replacer_ s)).2 s in
        let s := set_page_table
                   (ExtendibleHash.Remove page_id (page_table_ s)) s in
        let p := mkPage (page_id_ p) (pin_count_ p) false (data_ p) in
        let p := ResetMemory p in
        let s := store_page targetPtr p s in
        let s := set_free_list (free_list_ s ++ [targetPtr]) s in
        let s := set_disk (DiskManager.DeallocatePage page_id (disk_manager_ s)) s in
        Ret true s
  | None =>
      let s := set_disk (DiskManager.DeallocatePage page_id (disk_manager_ s)) s in
      Ret true s
  end.

(** Lines 203-223: [NewPage] returns the frame together with the id stored
    through the reference parameter. *)
Definition NewPage (s : BufferPoolManager) : outcome (option (nat * Z)) :=
  call (victim, s) := GetVictimPage s in
  match victim with
  | None => Ret None s
  | Some targetPtr =>
      let '(page_id, d) := DiskManager.AllocatePage (disk_manager_ s) in
      let s := set_disk d s in
      let s := write_back_if_dirty targetPtr s in
      let p := page_at s targetPtr in
      let s := set_page_table
                 (ExtendibleHash.Remove (GetPageId p) (page_table_ s)) s in
      let s := set_page_table
                 (ExtendibleHash.Insert page_id targetPtr (page_table_ s)) s in
      let p := mkPage page_id (pin_count_ p) (is_dirty_ p) (data_ p) in
      let p := ResetMemory p in
      let p := mkPage (page_id_ p) 1 false (data_ p) in
      let s := store_page targetPtr p s in
      Ret (Some (targetPtr, page_id)) s
  end.

(** ** Runs of the pool *)

Inductive op : Type :=
  | OpFetchPage (page_id : Z)
  | OpUnpinPage (page_id : Z) (is_dirty : bool)
  | OpFlushPage (page_id : Z)
  | OpDeletePage (page_id : Z)
  | OpNewPage.

(** The pool after an operation, when the operation returns. *)
Definition state_of {A : Type} (o : outcome A) : option BufferPoolManager :=
  match o with
  | Ret _ s => Some s
  | Abort _ => None
  end.

Definition step (o : op) (s : BufferPoolManager) : option BufferPoolManager :=
  match o with
  | OpFetchPage page_id => state_of (FetchPage page_id s)
  | OpUnpinPage page_id is_dirty => state_of (UnpinPage page_id is_dirty s)
  | OpFlushPage page_id => state_of (FlushPage page_id s)
  | OpDeletePage page_id => state_of (DeletePage page_id s)
  | OpNewPage => state_of (NewPage s)
  end.

(** A run carries the pool through a list of operations, and stops at the
    first failed assertion. *)
Fixpoint run (os : list op) (s : BufferPoolManager) : option BufferPoolManager :=
  match os with
  | [] => Some s
  | o :: os' =>
      match step o s with
      | Some s' => run os' s'
      | None => None
      end
  end.

Section Reachability.

(** [allowed o s]: the caller may issue [o] in state [s]. *)
Variable allowed : op → BufferPoolManager → Prop.
Variables (pool_size page_size : nat) (disk : DiskManager.t).

Inductive reachable_by : BufferPoolManager → Prop :=
  | reachable_new :
      reachable_by (BufferPoolManager_new pool_size page_size disk)
  | reachable_step o s s' :
      reachable_by s → allowed o s → step o s = Some s' → reachable_by s'.

End Reachability.

(** Every state that some sequence of the five operations leads to. *)
Definition reachable := reachable_by (λ _ _, True).

(** ** Invariants of the pool *)

(** What every run maintains, whatever ids the callers pass: an entry of
    the page table points at a frame of the array that carries the key as
    its id; the free list and the replacer list each frame at most once,
    only frames of the array with pin count 0; a frame on the free list
    is neither tracked by the replacer nor the target of a page-table
    entry; no pin count is negative. *)
Record pool_inv (s : BufferPoolManager) : Prop := mk_pool_inv {
  inv_table : ∀ k f, page_table_ s !! k = Some f →
              f < length (pages_ s) ∧ page_id_ (page_at s f) = k;
  inv_free_nodup : NoDup (free_list_ s);
  inv_free : ∀ f, f ∈ free_list_ s →
             f < length (pages_ s) ∧ pin_count_ (page_at s f) = 0%Z ∧
             (f ∉ replacer_ s) ∧ (∀ k, page_table_ s !! k ≠ Some f);
  inv_replacer_nodup : NoDup (replacer_ s);
  inv_replacer : ∀ f, f ∈ replacer_ s →
                 f < length (pages_ s) ∧ pin_count_ (page_at s f) = 0%Z;
  inv_pin : ∀ f, (0 ≤ pin_count_ (page_at s f))%Z
}.

(** A frame is Resident-Unpinned when it carries a valid id that the page
    table maps to this very frame and nobody holds a pin on it. *)
Definition Resident_Unpinned (s : BufferPoolManager) (f : nat) : Prop :=
  ∃ p, pages_ s !! f = Some p ∧
       page_id_ p ≠ INVALID_PAGE_ID ∧
       page_table_ s !! page_id_ p = Some f ∧
       pin_count_ p = 0%Z.

(** Callers that only fetch valid ids, over a disk manager whose
    [AllocatePage] hands out a valid id that is not resident. *)
Definition well_behaved (o : op) (s : BufferPoolManager) : Prop :=
  match o with
  | OpFetchPage page_id => page_id ≠ INVALID_PAGE_ID
  | OpNewPage =>
      DiskManager.next_page_id_ (disk_manager_ s) ≠ INVALID_PAGE_ID ∧
      page_table_ s !! DiskManager.next_page_id_ (disk_manager_ s) = None
  | _ => True
  end.

(** What such runs maintain on top of [pool_inv]: no entry under the
    invalid id, every tracked frame is the target of the entry for its
    id, and every unpinned target of an entry is tracked. *)
Record tracking_inv (s : BufferPoolManager) : Prop := mk_tracking_inv {
  trk_valid : ∀ f, page_table_ s !! INVALID_PAGE_ID ≠ Some f;
  trk_resident : ∀ f, f ∈ replacer_ s →
                 page_table_ s !! page_id_ (page_at s f) = Some f;
  trk_unpinned : ∀ k f, page_table_ s !! k = Some f →
                 pin_count_ (page_at s f) = 0%Z → f ∈ replacer_ s
}.

(** ** The three states of a frame *)




(** The largest value of the [int] that holds [pin_count_]. *)
Definition INT_MAX : Z := (2 ^ 31 - 1)%Z.

(** Callers that never pin a page whose pin count has reached [INT_MAX]:
    on their runs the increment of line 89 stays inside the range of
    [int], where it is the increment on [Z]. *)
Definition no_overflow (o : op) (s : BufferPoolManager) : Prop :=
  match o with
  | OpFetchPage page_id =>
      match page_table_ s !! page_id with
      | Some f => (pin_count_ (page_at s f) < INT_MAX)%Z
      | None => True
      end
  | _ => True
  end.

(** [run_allowed allowed os s]: every operation of the run [os] from [s]
    is allowed in the state in which it is issued. *)
Fixpoint run_allowed (allowed : op → BufferPoolManager → Prop)
    (os : list op) (s : BufferPoolManager) : Prop :=
  match os with
  | [] => True
  | o :: os' =>
      allowed o s ∧
      match step o s with
      | Some s' => run_allowed allowed os' s'
      | None => True
      end
  end.


(** ** Small pools for the examples *)

Definition zeros4 : list byte := [x00; x00; x00; x00].

(** One frame of four bytes over an empty disk. *)
Definition pool1 : BufferPoolManager :=
  BufferPoolManager_new 1 4 DiskManager.empty.

(** [pool1] after [NewPage]: page 0 sits in frame 0 with one pin. *)
Definition pool1_pinned : BufferPoolManager :=
  mkBPM [mkPage 0 1 false zeros4] {[0%Z := 0]} [] []
        (DiskManager.mk ∅ 1 [CallAllocatePage 0]).

(** [pool1] after [NewPage; UnpinPage(0, false)]: page 0 is resident,
    clean and unpinned. *)
Definition pool1_unpinned : BufferPoolManager :=
  mkBPM [mkPage 0 0 false zeros4] {[0%Z := 0]} [0] []
        (DiskManager.mk ∅ 1 [CallAllocatePage 0]).

(** [pool1] after [NewPage; FetchPage(0); UnpinPage(0, true)]: page 0 has
    one pin left and is dirty. *)
Definition pool1_dirty : BufferPoolManager :=
  mkBPM [mkPage 0 1 true zeros4] {[0%Z := 0]} [] []
        (DiskManager.mk ∅ 1 [CallAllocatePage 0]).

(** [pool1] after [NewPage; UnpinPage(0, false); DeletePage(0)]: frame 0
    is back on the free list and still carries the id 0. *)
Definition pool1_deleted : BufferPoolManager :=
  mkBPM [mkPage 0 0 false zeros4] ∅ [] [0]
        (DiskManager.mk ∅ 1 [CallAllocatePage 0; CallDeallocatePage 0]).

(** Two frames of four bytes over an empty disk. *)
Definition pool2 : BufferPoolManager :=
  BufferPoolManager_new 2 4 DiskManager.empty.

(** [pool2] after [NewPage; NewPage; UnpinPage(0, true)]: both frames are
    taken, page 0 is dirty and unpinned, page 1 is pinned. *)
Definition pool2_dirty_victim : BufferPoolManager :=
  mkBPM [mkPage 0 0 true zeros4; mkPage 1 1 false zeros4]
        {[0%Z := 0; 1%Z := 1]} [0] []
        (DiskManager.mk ∅ 2 [CallAllocatePage 0; CallAllocatePage 1]).


(** [pool2] after [FetchPage(0); UnpinPage(0, false); NewPage]: the disk
    manager's first id is 0 as well, so both frames carry the id 0 and
    the page table maps it to frame 1, while the replacer tracks frame 0. *)
Definition pool2_shadowed : BufferPoolManager :=
  mkBPM [mkPage 0 0 false zeros4; mkPage 0 1 false zeros4]
        {[0%Z := 1]} [0] []
        (DiskManager.mk ∅ 1 [CallReadPage 0; CallAllocatePage 0]).

(** * Properties *)

(** ** Reading and writing frames *)

Lemma page_at_lookup (s : BufferPoolManager) (f : nat) (p : Page) :
  pages_ s !! f = Some p → page_at s f = p.
Proof. apply list_lookup_total_correct. Qed.

(** Storing a frame that only differs in fields other than [pin_count_]
    keeps every pin count. *)
Lemma pin_count_store_page (s : BufferPoolManager) (f g : nat) (p : Page) :
  pin_count_ p = pin_count_ (page_at s f) →
  pin_count_ (page_at (store_page f p s) g) = pin_count_ (page_at s g).
Proof.
  intros Hp. unfold page_at in *; simpl.
  rewrite list_lookup_total_insert. case_decide as H; [|done].
  destruct H as [-> _]. done.
Qed.

(** ** FlushPage *)

(** C8. [FlushPage] always returns.  It returns false exactly when the id
    is absent from the page table or the frame found carries
    [INVALID_PAGE_ID], and then nothing changes.  Otherwise it returns
    true; a dirty frame costs one [WritePage] call for the id with the
    frame's buffer and has its dirty flag cleared, a clean frame leaves
    the pool as it was.  In every case the pin counts, the page table, the
    replacer and the free list are those of before the call. *)
Theorem FlushPage_spec (page_id : Z) (s : BufferPoolManager) :
  ∃ (b : bool) (s' : BufferPoolManager),
    FlushPage page_id s = Ret b s' ∧
    (b = false ↔
       page_table_ s !! page_id = None ∨
       ∃ f, page_table_ s !! page_id = Some f ∧
            page_id_ (page_at s f) = INVALID_PAGE_ID) ∧
    (b = false → s' = s) ∧
    page_table_ s' = page_table_ s ∧
    replacer_ s' = replacer_ s ∧
    free_list_ s' = free_list_ s ∧
    (∀ g, pin_count_ (page_at s' g) = pin_count_ (page_at s g)) ∧
    (∀ f p,
       b = true → page_table_ s !! page_id = Some f → pages_ s !! f = Some p →
       if is_dirty_ p then
         DiskManager.calls (disk_manager_ s') =
           DiskManager.calls (disk_manager_ s) ++ [CallWritePage page_id (data_ p)] ∧
         pages_ s' =
           <[f := mkPage (page_id_ p) (pin_count_ p) false (data_ p)]> (pages_ s) ∧
         is_dirty_ (page_at s' f) = false
       else s' = s).
Proof.
  unfold FlushPage, ExtendibleHash.Find.
  destruct (page_table_ s !! page_id) as [f|] eqn:Hfind.
  - destruct (decide (page_id_ (page_at s f) = INVALID_PAGE_ID)) as [Hinv|Hval].
    + exists false, s. repeat split; eauto; try done.
    + destruct (is_dirty_ (page_at s f)) eqn:Hdirty.
      * eexists true, _. split; [reflexivity|]. simpl.
        repeat split; try done.
        -- intros [?|(f' & Hf' & ?)]; [done|]. congruence.
        -- intros g. fold (store_page f
             (mkPage (page_id_ (page_at s f)) (pin_count_ (page_at s f)) false
                     (data_ (page_at s f))) s).
           apply (pin_count_store_page
                    (set_disk (DiskManager.WritePage page_id (data_ (page_at s f))
                                 (disk_manager_ s)) s)). done.
        -- intros f' p _ [= <-] Hp.
           rewrite (page_at_lookup _ _ _ Hp) in Hdirty |- *. rewrite Hdirty.
           repeat split.
           unfold page_at; simpl. rewrite list_lookup_total_insert_eq; [done|].
           by eapply lookup_lt_Some.
      * exists true, s. repeat split; try done.
        -- intros [?|(f' & Hf' & ?)]; [done|]. congruence.
        -- intros f' p _ [= <-] Hp.
           rewrite (page_at_lookup _ _ _ Hp) in Hdirty. by rewrite Hdirty.
  - exists false, s. repeat split; eauto; try done.
Qed.

(** ** UnpinPage *)

(** The small pools are states of runs from the constructor. *)
Lemma pool1_pinned_run : run [OpNewPage] pool1 = Some pool1_pinned.
Proof. vm_compute. reflexivity. Qed.

Lemma pool1_unpinned_run :
  run [OpNewPage; OpUnpinPage 0 false] pool1 = Some pool1_unpinned.
Proof. vm_compute. reflexivity. Qed.

Lemma pool1_dirty_run :
  run [OpNewPage; OpFetchPage 0; OpUnpinPage 0 true] pool1 = Some pool1_dirty.
Proof. vm_compute. reflexivity. Qed.

(** C1, on the code.  After [NewPage; FetchPage(0); UnpinPage(0, true)]
    page 0 is resident and dirty with one pin left; [UnpinPage(0, false)]
    then succeeds, makes no disk call and leaves the frame clean: line 129
    assigns the argument to the flag. *)
Theorem UnpinPage_false_clears_dirty :
  run [OpNewPage; OpFetchPage 0; OpUnpinPage 0 true] pool1 = Some pool1_dirty ∧
  page_table_ pool1_dirty !! 0%Z = Some 0 ∧
  is_dirty_ (page_at pool1_dirty 0) = true ∧
  ∃ s', UnpinPage 0 false pool1_dirty = Ret true s' ∧
        is_dirty_ (page_at s' 0) = false ∧
        disk_manager_ s' = disk_manager_ pool1_dirty.
Proof.
  split; [vm_compute; reflexivity|]. split; [by vm_compute|]. split; [done|].
  eexists. split; [vm_compute; reflexivity|]. split; reflexivity.
Qed.

(** C2 as stated fails: on a resident page with pin count 0,
    [UnpinPage(id, true)] returns false but sets the dirty flag. *)
Lemma UnpinPage_unpinned_not_unchanged :
  ¬ (∀ (page_id : Z) (is_dirty : bool) (s : BufferPoolManager) f p,
       page_table_ s !! page_id = Some f → pages_ s !! f = Some p →
       pin_count_ p = 0%Z →
       UnpinPage page_id is_dirty s = Ret false s).
Proof.
  intros H.
  specialize (H 0%Z true pool1_unpinned 0 (mkPage 0 0 false zeros4)).
  assert (Hs : UnpinPage 0 true pool1_unpinned =
               Ret false (store_page 0 (mkPage 0 0 true zeros4) pool1_unpinned))
    by (vm_compute; reflexivity).
  rewrite Hs in H.
  assert (Heq : Ret false (store_page 0 (mkPage 0 0 true zeros4) pool1_unpinned)
                = Ret false pool1_unpinned)
    by (apply H; [by vm_compute|done|done]).
  inversion Heq.
Qed.

(** C2, amended.  On a resident page with pin count 0, [UnpinPage] returns
    false and the pool after the call is the pool before it except for the
    dirty flag of that page's frame.  With [is_dirty = true] the flag is
    set afterwards; on a clean frame the flag afterwards is the argument,
    so with [is_dirty = false] it stays clear; and whenever the argument
    equals the flag the frame has, the whole pool is unchanged. *)
Theorem UnpinPage_unpinned (page_id : Z) (is_dirty : bool)
    (s : BufferPoolManager) (f : nat) (p : Page) :
  page_table_ s !! page_id = Some f →
  pages_ s !! f = Some p →
  pin_count_ p = 0%Z →
  ∃ b : bool,
    UnpinPage page_id is_dirty s =
      Ret false (store_page f (mkPage (page_id_ p) (pin_count_ p) b (data_ p)) s) ∧
    (is_dirty = true → b = true) ∧
    (is_dirty_ p = false → b = is_dirty) ∧
    (is_dirty_ p = is_dirty → UnpinPage page_id is_dirty s = Ret false s).
Proof.
  intros Hfind Hp Hpin. exists is_dirty.
  assert (Hcall : UnpinPage page_id is_dirty s =
            Ret false (store_page f (mkPage (page_id_ p) (pin_count_ p) is_dirty
                                            (data_ p)) s)).
  { unfold UnpinPage, ExtendibleHash.Find. rewrite Hfind.
    rewrite (page_at_lookup _ _ _ Hp). simpl.
    unfold GetPinCount; simpl. rewrite Hpin. by rewrite decide_True. }
  split_and!; [done|done|done|].
  intros Hsame. rewrite Hcall. f_equal.
  unfold store_page, set_pages.
  replace (mkPage (page_id_ p) (pin_count_ p) is_dirty (data_ p)) with p
    by (destruct p; simpl in *; by subst).
  rewrite list_insert_id by done. by destruct s.
Qed.

Lemma UnpinPage_unpinned_witness :
  UnpinPage 0 true pool1_unpinned =
    Ret false (store_page 0 (mkPage 0 0 true zeros4) pool1_unpinned) ∧
  UnpinPage 0 false pool1_unpinned = Ret false pool1_unpinned.
Proof.
  split.
  - destruct (UnpinPage_unpinned 0 true pool1_unpinned 0 (mkPage 0 0 false zeros4))
      as (b & Hcall & Hset & _); [by vm_compute|reflexivity|reflexivity|].
    rewrite (Hset eq_refl) in Hcall. exact Hcall.
  - destruct (UnpinPage_unpinned 0 false pool1_unpinned 0 (mkPage 0 0 false zeros4))
      as (b & _ & _ & _ & Hsame); [by vm_compute|reflexivity|reflexivity|].
    exact (Hsame eq_refl).
Defined.

(** ** DeletePage *)

(** C3 as stated fails: deleting a pinned resident page returns false
    without any call to the disk manager. *)
Lemma DeletePage_pinned_no_deallocate :
  ¬ (∀ (page_id : Z) (s : BufferPoolManager),
       ∃ (b : bool) (s' : BufferPoolManager),
         DeletePage page_id s = Ret b s' ∧
         DiskManager.calls (disk_manager_ s') =
           DiskManager.calls (disk_manager_ s) ++ [CallDeallocatePage page_id] ∧
         (b = false ↔
            ∃ f, page_table_ s !! page_id = Some f ∧
                 (pin_count_ (page_at s f) > 0)%Z)).
Proof.
  intros H. destruct (H 0%Z pool1_pinned) as (b & s' & Hdel & Hcalls & _).
  assert (Hs : DeletePage 0 pool1_pinned = Ret false pool1_pinned)
    by (vm_compute; reflexivity).
  rewrite Hs in Hdel. injection Hdel as <- <-. discriminate Hcalls.
Qed.

(** C3, amended.  [DeletePage] always returns.  It returns false exactly
    when the id is resident in a frame with a positive pin count, and then
    the pool, the disk manager included, is untouched.  Whenever it
    returns true its last act is the request [DeallocatePage(id)]; when
    the id is not resident this request is all it does. *)
Theorem DeletePage_spec (page_id : Z) (s : BufferPoolManager) :
  ∃ (b : bool) (s' : BufferPoolManager),
    DeletePage page_id s = Ret b s' ∧
    (b = false ↔
       ∃ f, page_table_ s !! page_id = Some f ∧ (pin_count_ (page_at s f) > 0)%Z) ∧
    (b = false → s' = s) ∧
    (b = true →
       DiskManager.calls (disk_manager_ s') =
         DiskManager.calls (disk_manager_ s) ++ [CallDeallocatePage page_id]) ∧
    (page_table_ s !! page_id = None →
       s' = set_disk (DiskManager.DeallocatePage page_id (disk_manager_ s)) s).
Proof.
  unfold DeletePage, ExtendibleHash.Find.
  destruct (page_table_ s !! page_id) as [f|] eqn:Hfind.
  - unfold GetPinCount.
    destruct (decide (pin_count_ (page_at s f) > 0)%Z) as [Hpin|Hpin].
    + exists false, s. repeat split; eauto; done.
    + eexists true, _. split; [reflexivity|]. simpl.
      repeat split; try done.
      intros (f' & [= <-] & ?). done.
  - eexists true, _. split; [reflexivity|]. simpl.
    repeat split; try done.
    intros (f' & ? & ?). done.
Qed.

(** ** Victim selection *)

(** What a returning call of [GetVictimPage] has done. *)
Lemma GetVictimPage_Ret (s s1 : BufferPoolManager) (v : option nat) :
  GetVictimPage s = Ret v s1 →
  (v = None ∧ s1 = s ∧ free_list_ s = [] ∧ replacer_ s = []) ∨
  (∃ f rest, v = Some f ∧ free_list_ s = f :: rest ∧ s1 = set_free_list rest s ∧
             page_id_ (page_at s f) = INVALID_PAGE_ID ∧
             pin_count_ (page_at s f) = 0%Z) ∨
  (∃ f r, v = Some f ∧ free_list_ s = [] ∧ replacer_ s = f :: r ∧
          s1 = set_replacer r s ∧ pin_count_ (page_at s f) = 0%Z).
Proof.
  unfold GetVictimPage, GetPageId, GetPinCount, LRUReplacer.Size,
    LRUReplacer.Victim.
  destruct (free_list_ s) as [|f rest] eqn:Hfree.
  - destruct (replacer_ s) as [|f r] eqn:Hrepl; simpl.
    + intros [= <- <-]. left. done.
    + change (page_at (set_replacer r s) f) with (page_at s f).
      case_decide as Hpin; [|done]. intros [= <- <-].
      right; right. exists f, r. done.
  - change (page_at (set_free_list rest s) f) with (page_at s f).
    case_decide as Hid; [|done]. case_decide as Hpin; [|done].
    intros [= <- <-]. right; left. exists f, rest. done.
Qed.

Lemma GetVictimPage_frame (s s1 : BufferPoolManager) (v : option nat) :
  GetVictimPage s = Ret v s1 →
  pages_ s1 = pages_ s ∧ page_table_ s1 = page_table_ s ∧
  disk_manager_ s1 = disk_manager_ s.
Proof.
  intros [(_ & -> & _)|[(f & rest & _ & _ & -> & _)|(f & r & _ & _ & _ & -> & _)]]
    %GetVictimPage_Ret; done.
Qed.

Lemma FetchPage_miss (page_id : Z) (s : BufferPoolManager) :
  page_table_ s !! page_id = None →
  FetchPage page_id s =
    call (victim, s1) := GetVictimPage s in
    match victim with
    | None => Ret None s1
    | Some f =>
        let p := page_at s f in
        let s2 := write_back_if_dirty f s1 in
        let rd := DiskManager.ReadPage page_id (data_ p) (disk_manager_ s2) in
        Ret (Some f)
            (mkBPM (<[f := mkPage page_id 1 false rd.1]> (pages_ s))
                   (<[page_id := f]> (delete (page_id_ p) (page_table_ s)))
                   (replacer_ s1) (free_list_ s1) rd.2)
    end.
Proof.
  intros Hmiss. unfold FetchPage, ExtendibleHash.Find. rewrite Hmiss.
  destruct (GetVictimPage s) as [[f|] s1|a] eqn:Hv; simpl; [|done|done].
  destruct (GetVictimPage_frame _ _ _ Hv) as (Hpages & Htable & Hdisk).
  unfold write_back_if_dirty, store_page, page_at. simpl.
  rewrite Hpages.
  destruct (is_dirty_ (pages_ s !!! f)); simpl; rewrite ?Hpages, ?Htable.
  all: done.
Qed.

Lemma NewPage_unfold (s : BufferPoolManager) :
  NewPage s =
    call (victim, s1) := GetVictimPage s in
    match victim with
    | None => Ret None s1
    | Some f =>
        let p := page_at s f in
        let al := DiskManager.AllocatePage (disk_manager_ s) in
        let s2 := write_back_if_dirty f (set_disk al.2 s1) in
        Ret (Some (f, al.1))
            (mkBPM (<[f := mkPage al.1 1 false (replicate (length (data_ p)) x00)]>
                      (pages_ s))
                   (<[al.1 := f]> (delete (page_id_ p) (page_table_ s)))
                   (replacer_ s1) (free_list_ s1) (disk_manager_ s2))
    end.
Proof.
  unfold NewPage.
  destruct (GetVictimPage s) as [[f|] s1|a] eqn:Hv; simpl; [|done|done].
  destruct (GetVictimPage_frame _ _ _ Hv) as (Hpages & Htable & Hdisk).
  unfold write_back_if_dirty, store_page, page_at. simpl.
  rewrite Hpages, ?Hdisk.
  destruct (is_dirty_ (pages_ s !!! f)); simpl; rewrite ?Hpages, ?Htable, ?Hdisk.
  all: done.
Qed.

(** C5.  Let the victim selection hand out frame [f], holding [p] before
    the call.  On a miss [FetchPage] then issues, in this order, one
    [WritePage] call with the id and the buffer of [p] when [p] is dirty
    and none when it is clean, and the [ReadPage] call for the new id;
    [NewPage] issues [AllocatePage] and then the same write-back.  These
    are all the disk calls of the operation, and a dirty victim's buffer
    is afterwards what the disk holds for its old id. *)
Theorem eviction_write_back (s s1 : BufferPoolManager) (f : nat) :
  GetVictimPage s = Ret (Some f) s1 →
  let p := page_at s f in
  let write_back :=
    if is_dirty_ p then [CallWritePage (page_id_ p) (data_ p)] else [] in
  (∀ page_id, page_table_ s !! page_id = None →
     ∃ s', FetchPage page_id s = Ret (Some f) s' ∧
           DiskManager.calls (disk_manager_ s') =
             DiskManager.calls (disk_manager_ s) ++
             write_back ++ [CallReadPage page_id] ∧
           (is_dirty_ p = true →
              DiskManager.contents (disk_manager_ s') !! page_id_ p
                = Some (data_ p))) ∧
  (∃ s', NewPage s = Ret (Some (f, DiskManager.next_page_id_ (disk_manager_ s))) s' ∧
         DiskManager.calls (disk_manager_ s') =
           DiskManager.calls (disk_manager_ s) ++
           [CallAllocatePage (DiskManager.next_page_id_ (disk_manager_ s))] ++
           write_back ∧
         (is_dirty_ p = true →
            DiskManager.contents (disk_manager_ s') !! page_id_ p
              = Some (data_ p))).
Proof.
  intros Hv p write_back.
  destruct (GetVictimPage_frame _ _ _ Hv) as (Hpages & Htable & Hdisk).
  assert (Hp : page_at s1 f = p) by (unfold p, page_at; by rewrite Hpages).
  split.
  - intros page_id Hmiss. rewrite (FetchPage_miss _ _ Hmiss), Hv. simpl.
    eexists. split; [reflexivity|]. simpl.
    unfold write_back_if_dirty, write_back. rewrite Hp, <- Hdisk.
    unfold GetPageId. destruct (is_dirty_ p); simpl.
    + split; [by rewrite <- app_assoc|]. intros _. apply lookup_insert_eq.
    + done.
  - rewrite NewPage_unfold, Hv. simpl.
    eexists. split; [reflexivity|].
    unfold write_back_if_dirty, write_back.
    change (page_at (set_disk _ s1) f) with (page_at s1 f). rewrite Hp.
    unfold GetPageId. destruct (is_dirty_ p); simpl.
    + split; [by rewrite <- app_assoc|]. intros _. apply lookup_insert_eq.
    + done.
Qed.

Lemma eviction_write_back_witness :
  ∃ s', FetchPage 7 pool2_dirty_victim = Ret (Some 0) s' ∧
        DiskManager.calls (disk_manager_ s') =
          [CallAllocatePage 0; CallAllocatePage 1;
           CallWritePage 0 zeros4; CallReadPage 7].
Proof.
  destruct (eviction_write_back pool2_dirty_victim
              (set_replacer [] pool2_dirty_victim) 0) as [Hfetch _];
    [vm_compute; reflexivity|].
  destruct (Hfetch 7%Z) as (s' & Hs' & Hcalls & _); [by vm_compute|].
  exists s'. split; [exact Hs'|exact Hcalls].
Defined.



(** C7, on the code.  After [NewPage; UnpinPage(0, false); DeletePage(0)]
    on a pool of one frame the free list holds frame 0, which still
    carries the id 0: [DeletePage] does not reset [page_id_].  With the
    free list non-empty, [NewPage] and a miss of [FetchPage] neither
    report unavailability nor return a frame; they stop on the assertion
    of line 63. *)
Theorem victim_after_DeletePage_aborts :
  run [OpNewPage; OpUnpinPage 0 false; OpDeletePage 0] pool1
    = Some pool1_deleted ∧
  free_list_ pool1_deleted = [0] ∧
  page_table_ pool1_deleted !! 7%Z = None ∧
  NewPage pool1_deleted = Abort AssertPageId ∧
  FetchPage 7 pool1_deleted = Abort AssertPageId.
Proof. repeat split; vm_compute; reflexivity. Qed.

(** Unavailability is reported exactly at exhaustion; every other
    returning call hands out a frame with one pin. *)
Lemma GetVictimPage_None_iff (s s1 : BufferPoolManager) :
  GetVictimPage s = Ret None s1 ↔
  free_list_ s = [] ∧ replacer_ s = [] ∧ s1 = s.
Proof.
  split.
  - intros [(_ & -> & ? & ?)|[(? & ? & ? & _)|(? & ? & ? & _)]]%GetVictimPage_Ret;
      done.
  - intros (Hfree & Hrepl & ->). unfold GetVictimPage. by rewrite Hfree, Hrepl.
Qed.

(** C10.  At exhaustion [NewPage] returns no frame and the pool after the
    call, the disk manager with its list of calls and its next id
    included, is the pool before it.  Whenever [NewPage] returns no frame
    nothing has changed, and a call in which the victim selection stops
    on an assertion stops there.  When [NewPage] returns a frame, that
    frame is the one the victim selection handed out and the id is the
    one [AllocatePage] had next. *)
Theorem NewPage_exhausted (s : BufferPoolManager) :
  (free_list_ s = [] → replacer_ s = [] → NewPage s = Ret None s) ∧
  (∀ s', NewPage s = Ret None s' →
     s' = s ∧ free_list_ s = [] ∧ replacer_ s = []) ∧
  (∀ a, GetVictimPage s = Abort a → NewPage s = Abort a) ∧
  (∀ f page_id s', NewPage s = Ret (Some (f, page_id)) s' →
     (∃ s1, GetVictimPage s = Ret (Some f) s1) ∧
     page_id = DiskManager.next_page_id_ (disk_manager_ s)).
Proof.
  split_and!.
  - intros Hfree Hrepl. rewrite NewPage_unfold.
    by rewrite (proj2 (GetVictimPage_None_iff s s)).
  - intros s'. rewrite NewPage_unfold.
    destruct (GetVictimPage s) as [[f|] s1|a] eqn:Hv; simpl; [done| |done].
    intros [= <-]. by apply GetVictimPage_None_iff in Hv as (? & ? & ->).
  - intros a Hv. by rewrite NewPage_unfold, Hv.
  - intros f page_id s'. rewrite NewPage_unfold.
    destruct (GetVictimPage s) as [[f'|] s1|a] eqn:Hv; simpl; [|done|done].
    intros [= <- <- <-]. eauto.
Qed.

(** As long as every frame on the free list carries [INVALID_PAGE_ID],
    the two operations do return a frame away from exhaustion, and that
    frame then has one pin. *)
Lemma victim_pinned_when_free_frames_invalid (s : BufferPoolManager) :
  pool_inv s →
  (∀ f, f ∈ free_list_ s → page_id_ (page_at s f) = INVALID_PAGE_ID) →
  free_list_ s ≠ [] ∨ replacer_ s ≠ [] →
  (∀ page_id, page_table_ s !! page_id = None →
     ∃ f s', FetchPage page_id s = Ret (Some f) s' ∧
             pin_count_ (page_at s' f) = 1%Z) ∧
  (∃ f page_id s', NewPage s = Ret (Some (f, page_id)) s' ∧
                   pin_count_ (page_at s' f) = 1%Z).
Proof.
  intros Hinv Hfresh Hsome.
  assert (Hv : ∃ f s1, GetVictimPage s = Ret (Some f) s1 ∧ f < length (pages_ s)).
  { unfold GetVictimPage, GetPageId, GetPinCount, LRUReplacer.Size,
      LRUReplacer.Victim.
    destruct (free_list_ s) as [|f rest] eqn:Hfree.
    - destruct (replacer_ s) as [|f r] eqn:Hrepl; [by destruct Hsome|]. simpl.
      destruct (inv_replacer _ Hinv f) as [Hlt Hpin]; [rewrite Hrepl; by left|].
      change (page_at (set_replacer r s) f) with (page_at s f).
      rewrite decide_True by done. eauto.
    - destruct (inv_free _ Hinv f) as (Hlt & Hpin & _); [rewrite Hfree; by left|].
      change (page_at (set_free_list rest s) f) with (page_at s f).
      rewrite decide_True by (apply Hfresh; by left).
      rewrite decide_True by done. eauto. }
  destruct Hv as (f & s1 & Hv & Hlt). split.
  - intros page_id Hmiss. rewrite (FetchPage_miss _ _ Hmiss), Hv. simpl.
    eexists f, _. split; [reflexivity|]. unfold page_at; simpl.
    by rewrite list_lookup_total_insert_eq.
  - rewrite NewPage_unfold, Hv. simpl.
    eexists f, _, _. split; [reflexivity|]. unfold page_at; simpl.
    by rewrite list_lookup_total_insert_eq.
Qed.

(** ** The replacer *)

Lemma Erase_elem_of (v x : nat) (r : list nat) :
  x ∈ (LRUReplacer.Erase v r).2 ↔ x ∈ r ∧ x ≠ v.
Proof.
  unfold LRUReplacer.Erase. case_decide as Hin; simpl.
  - rewrite list_elem_of_filter. tauto.
  - split; [|tauto]. intros Hx. split; [done|]. by intros ->.
Qed.

Lemma Erase_NoDup (v : nat) (r : list nat) :
  NoDup r → NoDup (LRUReplacer.Erase v r).2.
Proof.
  intros Hnd. unfold LRUReplacer.Erase. case_decide; simpl; [|done].
  by apply NoDup_filter.
Qed.

Lemma Insert_elem_of (v x : nat) (r : list nat) :
  x ∈ LRUReplacer.Insert v r ↔ x ∈ r ∨ x = v.
Proof.
  unfold LRUReplacer.Insert. case_decide as Hin.
  - split; [tauto|]. intros [?| ->]; done.
  - rewrite elem_of_app, list_elem_of_singleton. done.
Qed.

Lemma Insert_NoDup (v : nat) (r : list nat) :
  NoDup r → NoDup (LRUReplacer.Insert v r).
Proof.
  intros Hnd. unfold LRUReplacer.Insert. case_decide as Hin; [done|].
  apply NoDup_app. split; [done|]. split; [|apply NoDup_singleton].
  intros x Hx ->%list_elem_of_singleton. done.
Qed.

(** ** Preservation of [pool_inv] *)

Lemma page_at_insert (s s' : BufferPoolManager) (f g : nat) (p : Page) :
  pages_ s' = <[f := p]> (pages_ s) →
  page_at s' g = if decide (f = g ∧ f < length (pages_ s)) then p else page_at s g.
Proof. intros H. unfold page_at. rewrite H. apply list_lookup_total_insert. Qed.

Lemma length_insert_pages (s s' : BufferPoolManager) (f : nat) (p : Page) :
  pages_ s' = <[f := p]> (pages_ s) → length (pages_ s') = length (pages_ s).
Proof. intros ->. apply length_insert. Qed.

Lemma pool_inv_new (pool_size page_size : nat) (disk : DiskManager.t) :
  pool_inv (BufferPoolManager_new pool_size page_size disk).
Proof.
  assert (Hpage : ∀ f, pin_count_ (page_at
            (BufferPoolManager_new pool_size page_size disk) f) = 0%Z).
  { intros f. unfold page_at; simpl. rewrite list_lookup_total_alt.
    destruct (replicate pool_size (Page_new page_size) !! f) as [p|] eqn:Hp;
      [|done].
    apply lookup_replicate in Hp as [-> _]. done. }
  split; simpl.
  - intros k f. by rewrite lookup_empty.
  - apply NoDup_seq.
  - intros f [_ Hf]%elem_of_seq. rewrite length_replicate.
    repeat split; [lia|apply Hpage|apply not_elem_of_nil|].
    intros k. by rewrite lookup_empty.
  - apply NoDup_nil_2.
  - intros f []%elem_of_nil.
  - intros f. by rewrite Hpage.
Qed.

(** Rewriting a frame in place, with the id it had; the pin count is
    either kept or, for a frame outside the free list and the replacer,
    replaced by a positive one. *)
Lemma pool_inv_store (s s' : BufferPoolManager) (f : nat) (p : Page) :
  pool_inv s →
  pages_ s' = <[f := p]> (pages_ s) →
  page_table_ s' = page_table_ s →
  free_list_ s' = free_list_ s →
  (∀ g, g ∈ replacer_ s' → g ∈ replacer_ s) →
  NoDup (replacer_ s') →
  page_id_ p = page_id_ (page_at s f) →
  pin_count_ p = pin_count_ (page_at s f) ∨
    ((0 < pin_count_ p)%Z ∧ (f ∉ free_list_ s) ∧ (f ∉ replacer_ s')) →
  pool_inv s'.
Proof.
  intros [HT HFn HF HRn HR HP] Hpages Htable Hfree Hrepl Hnodup Hid Hpin.
  assert (Hlen := length_insert_pages _ _ _ _ Hpages).
  split; rewrite ?Htable, ?Hfree, ?Hlen; try done.
  - intros k g Hk. destruct (HT k g Hk) as [Hg Hidg]. split; [done|].
    rewrite (page_at_insert _ _ _ g _ Hpages).
    case_decide as Hfg; [|done]. destruct Hfg as [-> _]. congruence.
  - intros g Hg. destruct (HF g Hg) as (Hlt & Hpg & Hnr & Hnt).
    repeat split; [done| |by intros ?%Hrepl|done].
    rewrite (page_at_insert _ _ _ g _ Hpages).
    case_decide as Hfg; [|done]. destruct Hfg as [-> _].
    destruct Hpin as [->|(_ & Hnf & _)]; done.
  - intros g Hg. destruct (HR g (Hrepl g Hg)) as (Hlt & Hpg).
    split; [done|].
    rewrite (page_at_insert _ _ _ g _ Hpages).
    case_decide as Hfg; [|done]. destruct Hfg as [-> _].
    destruct Hpin as [->|(_ & _ & Hnr)]; done.
  - intros g. rewrite (page_at_insert _ _ _ g _ Hpages).
    case_decide as Hfg; [|done].
    destruct Hpin as [->|(? & _)]; [done|lia].
Qed.

Lemma FetchPage_hit (page_id : Z) (s : BufferPoolManager) (f : nat) :
  page_table_ s !! page_id = Some f →
  FetchPage page_id s =
    Ret (Some f)
        (mkBPM (<[f := mkPage (page_id_ (page_at s f))
                             (pin_count_ (page_at s f) + 1)
                             (is_dirty_ (page_at s f)) (data_ (page_at s f))]>
                  (pages_ s))
               (page_table_ s)
               (LRUReplacer.Erase f (replacer_ s)).2
               (free_list_ s) (disk_manager_ s)).
Proof.
  intros Hhit. unfold FetchPage, ExtendibleHash.Find. by rewrite Hhit.
Qed.

Lemma UnpinPage_pool_inv (page_id : Z) (is_dirty : bool)
    (s s' : BufferPoolManager) (b : bool) :
  pool_inv s → UnpinPage page_id is_dirty s = Ret b s' → pool_inv s'.
Proof.
  intros Hinv. unfold UnpinPage, ExtendibleHash.Find.
  destruct (page_table_ s !! page_id) as [f|] eqn:Hfind; [|by intros [= <- <-]].
  destruct (inv_table _ Hinv _ _ Hfind) as [Hlt Hid].
  unfold GetPinCount; simpl.
  set (p := page_at s f).
  set (s1 := store_page f (mkPage (page_id_ p) (pin_count_ p) is_dirty (data_ p)) s).
  assert (Hinv1 : pool_inv s1).
  { apply (pool_inv_store s s1 f (mkPage (page_id_ p) (pin_count_ p) is_dirty (data_ p)));
      try done; [apply (inv_replacer_nodup _ Hinv)|by left]. }
  case_decide as Hpin; [by intros [= <- <-]|].
  assert (Hnr : f ∉ replacer_ s).
  { intros Hr. apply (inv_replacer _ Hinv) in Hr as [_ Hr]. fold p in Hr. lia. }
  assert (Hnf : f ∉ free_list_ s).
  { intros Hr. apply (inv_free _ Hinv) in Hr as (_ & _ & _ & Hr). by eapply Hr. }
  case_decide as Hzero; intros [= <- <-].
  - (* the last pin is released: the frame enters the replacer *)
    destruct Hinv as [HT HFn HF HRn HR HP].
    split; simpl; rewrite ?length_insert; try done.
    + intros k g Hk. destruct (HT k g Hk) as [Hg Hidg]. split; [done|].
      unfold page_at; simpl. rewrite !list_lookup_total_insert, !length_insert.
      case_decide as Hfg; [|by repeat case_decide]. by destruct Hfg as [-> _].
    + intros g Hg. destruct (HF g Hg) as (Hg1 & Hg2 & Hg3 & Hg4).
      assert (g ≠ f) by (by intros ->).
      repeat split; [done| | |done].
      * unfold page_at; simpl.
        by rewrite !list_lookup_total_insert_ne.
      * rewrite Insert_elem_of. by intros [?|?].
    + by apply Insert_NoDup.
    + intros g [Hg| ->]%Insert_elem_of.
      * assert (g ≠ f) by (by intros ->).
        destruct (HR g Hg). split; [done|].
        unfold page_at; simpl. by rewrite !list_lookup_total_insert_ne.
      * split; [done|]. unfold page_at; simpl.
        rewrite list_lookup_total_insert_eq; [done|by rewrite length_insert].
    + intros g. unfold page_at; simpl.
      rewrite !list_lookup_total_insert, !length_insert.
      repeat case_decide; simpl; try lia; apply HP.
  - apply (pool_inv_store s1 _ f
             (mkPage (page_id_ p) (pin_count_ p - 1) is_dirty (data_ p)));
      try done.
    + apply (inv_replacer_nodup _ Hinv).
    + simpl. unfold s1, page_at; simpl.
      by rewrite list_lookup_total_insert_eq.
    + right. simpl in *. repeat split; [lia|done|done].
Qed.

Lemma FlushPage_pool_inv (page_id : Z) (s s' : BufferPoolManager) (b : bool) :
  pool_inv s → FlushPage page_id s = Ret b s' → pool_inv s'.
Proof.
  intros Hinv. unfold FlushPage, ExtendibleHash.Find.
  destruct (page_table_ s !! page_id) as [f|] eqn:Hfind; [|by intros [= <- <-]].
  case_decide; [by intros [= <- <-]|].
  destruct (is_dirty_ (page_at s f)); intros [= <- <-]; [|done].
  apply (pool_inv_store s _ f
           (mkPage (page_id_ (page_at s f)) (pin_count_ (page_at s f)) false
                   (data_ (page_at s f)))); simpl; try done.
  - apply (inv_replacer_nodup _ Hinv).
  - by left.
Qed.

Lemma DeletePage_pool_inv (page_id : Z) (s s' : BufferPoolManager) (b : bool) :
  pool_inv s → DeletePage page_id s = Ret b s' → pool_inv s'.
Proof.
  intros Hinv. unfold DeletePage, ExtendibleHash.Find, ExtendibleHash.Remove.
  destruct (page_table_ s !! page_id) as [f|] eqn:Hfind.
  2:{ intros [= <- <-]. by destruct Hinv. }
  unfold GetPinCount. case_decide as Hpin; [by intros [= <- <-]|].
  intros [= <- <-].
  destruct Hinv as [HT HFn HF HRn HR HP].
  destruct (HT _ _ Hfind) as [Hlt Hid].
  assert (Hzero : pin_count_ (page_at s f) = 0%Z) by (specialize (HP f); lia).
  assert (Hnf : f ∉ free_list_ s).
  { intros Hr. apply HF in Hr as (_ & _ & _ & Hr). by eapply Hr. }
  assert (Hpage : ∀ g, g ≠ f →
            <[f := ResetMemory (mkPage (page_id_ (page_at s f))
                                  (pin_count_ (page_at s f)) false
                                  (data_ (page_at s f)))]> (pages_ s) !!! g
            = page_at s g).
  { intros g Hg. by rewrite list_lookup_total_insert_ne. }
  split; simpl; rewrite ?length_insert.
  - intros k g Hk. apply lookup_delete_Some in Hk as [Hne Hk].
    destruct (HT k g Hk) as [Hg Hidg]. split; [done|].
    unfold page_at; simpl. rewrite Hpage; [done|].
    intros ->. congruence.
  - apply NoDup_app. split; [done|]. split; [|apply NoDup_singleton].
    intros x Hx ->%list_elem_of_singleton. done.
  - intros g [Hg| ->%list_elem_of_singleton]%elem_of_app.
    + destruct (HF g Hg) as (Hg1 & Hg2 & Hg3 & Hg4).
      assert (g ≠ f) by (by intros ->).
      repeat split; [done| | |].
      * unfold page_at; simpl. by rewrite Hpage.
      * rewrite Erase_elem_of. tauto.
      * intros k [_ Hk]%lookup_delete_Some. by eapply Hg4.
    + repeat split; [done| | |].
      * unfold page_at; simpl. by rewrite list_lookup_total_insert_eq.
      * rewrite Erase_elem_of. tauto.
      * intros k [Hne Hk]%lookup_delete_Some.
        destruct (HT k f Hk) as [_ Hidk]. congruence.
  - by apply Erase_NoDup.
  - intros g [Hg Hne]%Erase_elem_of. destruct (HR g Hg). split; [done|].
    unfold page_at; simpl. by rewrite Hpage.
  - intros g. unfold page_at in *; simpl. rewrite list_lookup_total_insert.
    case_decide; simpl; [lia|apply HP].
Qed.

(** What the invariant tells about a frame the victim selection hands
    out: it is a frame of the array, it has left the free list and the
    replacer, and no entry of the page table other than the one for its
    own id points at it. *)
Lemma victim_facts (s s1 : BufferPoolManager) (f : nat) :
  pool_inv s → GetVictimPage s = Ret (Some f) s1 →
  f < length (pages_ s) ∧
  NoDup (free_list_ s1) ∧ NoDup (replacer_ s1) ∧
  (∀ g, g ∈ free_list_ s1 → g ∈ free_list_ s ∧ g ≠ f) ∧
  (∀ g, g ∈ replacer_ s1 → g ∈ replacer_ s ∧ g ≠ f) ∧
  (∀ k g, k ≠ page_id_ (page_at s f) → page_table_ s !! k = Some g → g ≠ f).
Proof.
  intros [HT HFn HF HRn HR HP].
  intros [(? & _)|[(f' & rest & [= <-] & Hfree & -> & _)
                  |(f' & r & [= <-] & Hfree & Hrepl & -> & _)]]%GetVictimPage_Ret;
    [done| |]; simpl.
  - rewrite Hfree in HFn, HF. apply NoDup_cons in HFn as [Hnotin HFn].
    destruct (HF f) as (Hlt & _ & Hnr & Hnt); [by left|].
    split_and!; try done.
    + intros g Hg. split; [rewrite Hfree; by right|by intros ->].
    + intros g Hg. split; [done|by intros ->].
    + intros k g _ Hk ->. by eapply Hnt.
  - rewrite Hrepl in HRn, HR. apply NoDup_cons in HRn as [Hnotin HRn].
    destruct (HR f) as (Hlt & _); [by left|].
    split_and!; try done.
    + rewrite Hfree. intros g Hg. by apply elem_of_nil in Hg.
    + intros g Hg. split; [rewrite Hrepl; by right|by intros ->].
    + intros k g Hne Hk ->. destruct (HT _ _ Hk). congruence.
Qed.

(** Lines 103-110 and 215-221: the victim frame is given to [page_id]. *)
Lemma pool_inv_install (s s1 s' : BufferPoolManager) (f : nat)
    (page_id : Z) (p : Page) :
  pool_inv s → GetVictimPage s = Ret (Some f) s1 →
  pages_ s' = <[f := p]> (pages_ s) →
  page_id_ p = page_id → pin_count_ p = 1%Z →
  page_table_ s' =
    <[page_id := f]> (delete (page_id_ (page_at s f)) (page_table_ s)) →
  replacer_ s' = replacer_ s1 → free_list_ s' = free_list_ s1 →
  pool_inv s'.
Proof.
  intros Hinv Hv Hpages Hid Hpin Htable Hrepl Hfree.
  destruct (victim_facts _ _ _ Hinv Hv) as (Hlt & HFn1 & HRn1 & HF1 & HR1 & HT1).
  destruct Hinv as [HT HFn HF HRn HR HP].
  assert (Hlen := length_insert_pages _ _ _ _ Hpages).
  assert (Hsame : ∀ g, g ≠ f → page_at s' g = page_at s g).
  { intros g Hg. rewrite (page_at_insert _ _ _ g _ Hpages).
    case_decide as Hfg; [|done]. by destruct Hfg as [-> _]. }
  assert (Hnew : page_at s' f = p).
  { rewrite (page_at_insert _ _ _ f _ Hpages). by rewrite decide_True. }
  assert (Hold : ∀ k g, page_table_ s' !! k = Some g →
            (k = page_id ∧ g = f) ∨ (page_table_ s !! k = Some g ∧ g ≠ f)).
  { intros k g. rewrite Htable.
    intros [[<- <-]|[Hne [Hne' Hk]%lookup_delete_Some]]%lookup_insert_Some;
      [by left|].
    right. split; [done|]. by eapply HT1. }
  split; rewrite ?Hlen, ?Hrepl, ?Hfree; try done.
  - intros k g [[-> ->]|[Hk Hg]]%Hold.
    + by rewrite Hnew.
    + rewrite Hsame by done. by apply HT.
  - intros g [Hg Hne]%HF1. destruct (HF g Hg) as (Hg1 & Hg2 & Hg3 & Hg4).
    repeat split; [done|by rewrite Hsame| |].
    + intros [? _]%HR1. done.
    + intros k [[_ ->]|[Hk _]]%Hold; [done|]. by eapply Hg4.
  - intros g [Hg Hne]%HR1. destruct (HR g Hg). by rewrite Hsame.
  - intros g. destruct (decide (g = f)) as [->|Hne].
    + rewrite Hnew. lia.
    + by rewrite Hsame.
Qed.

Lemma FetchPage_pool_inv (page_id : Z) (s s' : BufferPoolManager)
    (r : option nat) :
  pool_inv s → FetchPage page_id s = Ret r s' → pool_inv s'.
Proof.
  intros Hinv.
  destruct (page_table_ s !! page_id) as [f|] eqn:Hfind.
  - rewrite (FetchPage_hit _ _ _ Hfind). intros [= <- <-].
    destruct (inv_table _ Hinv _ _ Hfind) as [Hlt Hid].
    apply (pool_inv_store s _ f
             (mkPage (page_id_ (page_at s f)) (pin_count_ (page_at s f) + 1)
                     (is_dirty_ (page_at s f)) (data_ (page_at s f))));
      simpl; try done.
    + by intros g [? _]%Erase_elem_of.
    + apply Erase_NoDup, (inv_replacer_nodup _ Hinv).
    + right. repeat split.
      * pose proof (inv_pin _ Hinv f). lia.
      * intros Hr. apply (inv_free _ Hinv) in Hr as (_ & _ & _ & Hr).
        by eapply Hr.
      * rewrite Erase_elem_of. tauto.
  - rewrite (FetchPage_miss _ _ Hfind).
    destruct (GetVictimPage s) as [[f|] s1|a] eqn:Hv; simpl; [| |done].
    + intros [= <- <-].
      eapply (pool_inv_install s s1 _ f page_id); try done; simpl; done.
    + intros [= <- <-]. by apply GetVictimPage_None_iff in Hv as (_ & _ & ->).
Qed.

Lemma NewPage_pool_inv (s s' : BufferPoolManager) (r : option (nat * Z)) :
  pool_inv s → NewPage s = Ret r s' → pool_inv s'.
Proof.
  intros Hinv. rewrite NewPage_unfold.
  destruct (GetVictimPage s) as [[f|] s1|a] eqn:Hv; simpl; [| |done].
  - intros [= <- <-].
    eapply (pool_inv_install s s1 _ f); try done; simpl; done.
  - intros [= <- <-]. by apply GetVictimPage_None_iff in Hv as (_ & _ & ->).
Qed.

Lemma step_pool_inv (o : op) (s s' : BufferPoolManager) :
  pool_inv s → step o s = Some s' → pool_inv s'.
Proof.
  intros Hinv. destruct o as [page_id|page_id is_dirty|page_id|page_id|]; simpl.
  - destruct (FetchPage page_id s) eqn:Hop; [|done]. intros [= <-].
    by eapply FetchPage_pool_inv.
  - destruct (UnpinPage page_id is_dirty s) eqn:Hop; [|done]. intros [= <-].
    by eapply UnpinPage_pool_inv.
  - destruct (FlushPage page_id s) eqn:Hop; [|done]. intros [= <-].
    by eapply FlushPage_pool_inv.
  - destruct (DeletePage page_id s) eqn:Hop; [|done]. intros [= <-].
    by eapply DeletePage_pool_inv.
  - destruct (NewPage s) eqn:Hop; [|done]. intros [= <-].
    by eapply NewPage_pool_inv.
Qed.

Lemma reachable_by_pool_inv (allowed : op → BufferPoolManager → Prop)
    (pool_size page_size : nat) (disk : DiskManager.t) (s : BufferPoolManager) :
  reachable_by allowed pool_size page_size disk s → pool_inv s.
Proof.
  induction 1 as [|o s s' _ IH _ Hstep].
  - apply pool_inv_new.
  - by eapply step_pool_inv.
Qed.

Lemma run_reachable (pool_size page_size : nat) (disk : DiskManager.t)
    (os : list op) (s s' : BufferPoolManager) :
  reachable pool_size page_size disk s → run os s = Some s' →
  reachable pool_size page_size disk s'.
Proof.
  revert s. induction os as [|o os IH]; simpl; intros s Hs.
  - by intros [= <-].
  - destruct (step o s) as [s1|] eqn:Hstep; [|done].
    apply IH. by eapply reachable_step.
Qed.


Lemma pool2_dirty_victim_reachable :
  reachable 2 4 DiskManager.empty pool2_dirty_victim.
Proof.
  apply (run_reachable 2 4 DiskManager.empty
           [OpNewPage; OpNewPage; OpUnpinPage 0 true] pool2).
  - apply reachable_new.
  - vm_compute. reflexivity.
Qed.


(** ** Preservation of [tracking_inv] *)

Lemma tracking_inv_new (pool_size page_size : nat) (disk : DiskManager.t) :
  tracking_inv (BufferPoolManager_new pool_size page_size disk).
Proof.
  split; simpl.
  - intros f. by rewrite lookup_empty.
  - intros f []%elem_of_nil.
  - intros k f. by rewrite lookup_empty.
Qed.

(** Rewriting the frame of a resident page with the id and the pin count
    it had. *)
Lemma tracking_inv_store (s s' : BufferPoolManager) (f : nat) (p : Page) :
  tracking_inv s →
  pages_ s' = <[f := p]> (pages_ s) →
  page_table_ s' = page_table_ s →
  replacer_ s' = replacer_ s →
  page_id_ p = page_id_ (page_at s f) →
  pin_count_ p = pin_count_ (page_at s f) →
  tracking_inv s'.
Proof.
  intros [HV HR HU] Hpages Htable Hrepl Hid Hpin.
  assert (Hsame : ∀ g, page_id_ (page_at s' g) = page_id_ (page_at s g) ∧
                       pin_count_ (page_at s' g) = pin_count_ (page_at s g)).
  { intros g. rewrite (page_at_insert _ _ _ g _ Hpages).
    case_decide as Hfg; [|done]. by destruct Hfg as [-> _]. }
  split; rewrite ?Htable, ?Hrepl; try done.
  - intros g Hg. rewrite (proj1 (Hsame g)). by apply HR.
  - intros k g Hk. rewrite (proj2 (Hsame g)). by apply (HU k).
Qed.

Lemma FlushPage_tracking_inv (page_id : Z) (s s' : BufferPoolManager) (b : bool) :
  tracking_inv s → FlushPage page_id s = Ret b s' → tracking_inv s'.
Proof.
  intros Hinv. unfold FlushPage, ExtendibleHash.Find.
  destruct (page_table_ s !! page_id) as [f|] eqn:Hfind; [|by intros [= <- <-]].
  case_decide; [by intros [= <- <-]|].
  destruct (is_dirty_ (page_at s f)); intros [= <- <-]; [|done].
  by apply (tracking_inv_store s _ f
              (mkPage (page_id_ (page_at s f)) (pin_count_ (page_at s f)) false
                      (data_ (page_at s f)))).
Qed.

Lemma FetchPage_hit_tracking_inv (page_id : Z) (s s' : BufferPoolManager)
    (f : nat) (r : option nat) :
  pool_inv s → tracking_inv s → page_table_ s !! page_id = Some f →
  FetchPage page_id s = Ret r s' → tracking_inv s'.
Proof.
  intros Hinv [HV HR HU] Hfind. rewrite (FetchPage_hit _ _ _ Hfind).
  intros [= <- <-].
  destruct (inv_table _ Hinv _ _ Hfind) as [Hlt Hid].
  assert (Hsame : ∀ g, g ≠ f →
            <[f := mkPage (page_id_ (page_at s f)) (pin_count_ (page_at s f) + 1)
                          (is_dirty_ (page_at s f)) (data_ (page_at s f))]>
              (pages_ s) !!! g = page_at s g).
  { intros g Hg. by rewrite list_lookup_total_insert_ne. }
  split; simpl; try done.
  - intros g [Hg Hne]%Erase_elem_of. unfold page_at; simpl.
    rewrite Hsame by done. by apply HR.
  - intros k g Hk. unfold page_at; simpl. rewrite Erase_elem_of.
    destruct (decide (g = f)) as [->|Hne].
    + rewrite list_lookup_total_insert_eq by done. simpl.
      pose proof (inv_pin _ Hinv f) as Hpos. unfold page_at in Hpos. lia.
    + rewrite Hsame by done. intros Hpin. split; [|done]. by apply (HU k).
Qed.

Lemma UnpinPage_tracking_inv (page_id : Z) (is_dirty : bool)
    (s s' : BufferPoolManager) (b : bool) :
  pool_inv s → tracking_inv s →
  UnpinPage page_id is_dirty s = Ret b s' → tracking_inv s'.
Proof.
  intros Hinv Htrk. unfold UnpinPage, ExtendibleHash.Find.
  destruct (page_table_ s !! page_id) as [f|] eqn:Hfind; [|by intros [= <- <-]].
  destruct (inv_table _ Hinv _ _ Hfind) as [Hlt Hid].
  unfold GetPinCount; simpl.
  set (p := page_at s f) in *.
  set (s1 := store_page f (mkPage (page_id_ p) (pin_count_ p) is_dirty (data_ p)) s).
  assert (Htrk1 : tracking_inv s1)
    by (by apply (tracking_inv_store s s1 f
                    (mkPage (page_id_ p) (pin_count_ p) is_dirty (data_ p)))).
  case_decide as Hpin; [by intros [= <- <-]|].
  destruct Htrk as [HV HR HU].
  assert (Hnr : f ∉ replacer_ s).
  { intros Hr. apply (inv_replacer _ Hinv) in Hr as [_ Hr]. fold p in Hr. lia. }
  assert (Hsame : ∀ q g, g ≠ f →
            <[f := q]> (<[f := mkPage (page_id_ p) (pin_count_ p) is_dirty (data_ p)]>
                          (pages_ s)) !!! g = page_at s g).
  { intros q g Hg. by rewrite !list_lookup_total_insert_ne. }
  assert (Hnew : ∀ q,
            <[f := q]> (<[f := mkPage (page_id_ p) (pin_count_ p) is_dirty (data_ p)]>
                          (pages_ s)) !!! f = q).
  { intros q. rewrite list_lookup_total_insert_eq; [done|].
    by rewrite length_insert. }
  case_decide as Hzero; intros [= <- <-]; split; simpl; try done.
  - intros g [Hg| ->]%Insert_elem_of; unfold page_at; simpl.
    + assert (g ≠ f) by (by intros ->). rewrite Hsame by done. by apply HR.
    + rewrite Hnew. simpl. by rewrite Hid.
  - intros k g Hk. unfold page_at; simpl. rewrite Insert_elem_of.
    destruct (decide (g = f)) as [->|Hne]; [by right|].
    rewrite Hsame by done. intros Hz. left. by apply (HU k).
  - intros g Hg. unfold page_at; simpl.
    assert (g ≠ f) by (by intros ->). rewrite Hsame by done. by apply HR.
  - intros k g Hk. unfold page_at; simpl.
    destruct (decide (g = f)) as [->|Hne].
    + rewrite Hnew. simpl in *. done.
    + rewrite Hsame by done. by apply (HU k).
Qed.

Lemma DeletePage_tracking_inv (page_id : Z) (s s' : BufferPoolManager) (b : bool) :
  pool_inv s → tracking_inv s →
  DeletePage page_id s = Ret b s' → tracking_inv s'.
Proof.
  intros Hinv [HV HR HU].
  unfold DeletePage, ExtendibleHash.Find, ExtendibleHash.Remove.
  destruct (page_table_ s !! page_id) as [f|] eqn:Hfind.
  2:{ by intros [= <- <-]. }
  unfold GetPinCount. case_decide as Hpin; [by intros [= <- <-]|].
  intros [= <- <-].
  destruct (inv_table _ Hinv _ _ Hfind) as [Hlt Hid].
  assert (Hpage : ∀ g, g ≠ f →
            <[f := ResetMemory (mkPage (page_id_ (page_at s f))
                                  (pin_count_ (page_at s f)) false
                                  (data_ (page_at s f)))]> (pages_ s) !!! g
            = page_at s g).
  { intros g Hg. by rewrite list_lookup_total_insert_ne. }
  assert (Hother : ∀ k g, page_table_ s !! k = Some g → k ≠ page_id → g ≠ f).
  { intros k g Hk Hne ->. destruct (inv_table _ Hinv _ _ Hk). congruence. }
  split; simpl.
  - intros g [_ Hg]%lookup_delete_Some. by eapply HV.
  - intros g [Hg Hne]%Erase_elem_of. unfold page_at; simpl.
    rewrite Hpage by done. apply lookup_delete_Some. split; [|by apply HR].
    intros Heq. apply HR in Hg. rewrite <- Heq in Hg. congruence.
  - intros k g [Hne Hk]%lookup_delete_Some. unfold page_at; simpl.
    assert (g ≠ f) by (by eapply Hother).
    rewrite Hpage by done. intros Hz. apply Erase_elem_of. split; [|done].
    by apply (HU k).
Qed.

Lemma victim_tracking_facts (s s1 : BufferPoolManager) (f : nat) :
  pool_inv s → tracking_inv s → GetVictimPage s = Ret (Some f) s1 →
  (∀ g, g ∈ replacer_ s → g ≠ f → g ∈ replacer_ s1) ∧
  (∀ k g, page_table_ s !! k = Some g → g ≠ f → k ≠ page_id_ (page_at s f)).
Proof.
  intros Hinv [HV HR HU].
  intros [(? & _)|[(f' & rest & [= <-] & Hfree & -> & Hid & _)
                  |(f' & r & [= <-] & Hfree & Hrepl & -> & _)]]%GetVictimPage_Ret;
    [done| |]; simpl.
  - split; [done|]. intros k g Hk _ ->. rewrite Hid in Hk. by eapply HV.
  - split.
    + intros g Hg Hne. rewrite Hrepl in Hg.
      by apply elem_of_cons in Hg as [?|?].
    + intros k g Hk Hne ->. rewrite HR in Hk; [congruence|].
      rewrite Hrepl. by left.
Qed.

Lemma tracking_inv_install (s s1 s' : BufferPoolManager) (f : nat)
    (page_id : Z) (p : Page) :
  pool_inv s → tracking_inv s → GetVictimPage s = Ret (Some f) s1 →
  page_id ≠ INVALID_PAGE_ID → page_table_ s !! page_id = None →
  pages_ s' = <[f := p]> (pages_ s) →
  page_id_ p = page_id → pin_count_ p = 1%Z →
  page_table_ s' =
    <[page_id := f]> (delete (page_id_ (page_at s f)) (page_table_ s)) →
  replacer_ s' = replacer_ s1 →
  tracking_inv s'.
Proof.
  intros Hinv Htrk Hv Hvalid Hfresh Hpages Hid Hpin Htable Hrepl.
  destruct (victim_facts _ _ _ Hinv Hv) as (Hlt & _ & _ & _ & HR1 & HT1).
  destruct (victim_tracking_facts _ _ _ Hinv Htrk Hv) as (HR2 & HT2).
  destruct Htrk as [HV HR HU].
  assert (Hsame : ∀ g, g ≠ f → page_at s' g = page_at s g).
  { intros g Hg. rewrite (page_at_insert _ _ _ g _ Hpages).
    case_decide as Hfg; [|done]. by destruct Hfg as [-> _]. }
  assert (Hnew : page_at s' f = p).
  { rewrite (page_at_insert _ _ _ f _ Hpages). by rewrite decide_True. }
  split; rewrite ?Htable, ?Hrepl.
  - intros g [[? _]|[_ [_ Hg]%lookup_delete_Some]]%lookup_insert_Some;
      [done|]. by eapply HV.
  - intros g [Hg Hne]%HR1. rewrite Hsame by done.
    pose proof (HR g Hg) as Hk.
    rewrite lookup_insert_ne by congruence.
    rewrite lookup_delete_ne; [done|].
    intros Heq. by apply (HT2 _ _ Hk Hne).
  - intros k g [[<- <-]|[Hne [Hne' Hk]%lookup_delete_Some]]%lookup_insert_Some.
    + rewrite Hnew, Hpin. done.
    + assert (g ≠ f) by (by eapply HT1).
      rewrite Hsame by done. intros Hz. apply HR2; [|done]. by apply (HU k).
Qed.

Lemma step_tracking_inv (o : op) (s s' : BufferPoolManager) :
  pool_inv s → tracking_inv s → well_behaved o s →
  step o s = Some s' → tracking_inv s'.
Proof.
  intros Hinv Htrk.
  destruct o as [page_id|page_id is_dirty|page_id|page_id|]; simpl.
  - intros Hvalid.
    destruct (FetchPage page_id s) as [r s2|] eqn:Hop; [|done]. intros [= <-].
    destruct (page_table_ s !! page_id) as [f|] eqn:Hfind.
    + by eapply FetchPage_hit_tracking_inv.
    + rewrite (FetchPage_miss _ _ Hfind) in Hop.
      destruct (GetVictimPage s) as [[f|] s1|a] eqn:Hv; simpl in Hop; [| |done].
      * injection Hop as <- <-.
        eapply (tracking_inv_install s s1 _ f page_id); try done; simpl; done.
      * injection Hop as <- <-.
        by apply GetVictimPage_None_iff in Hv as (_ & _ & ->).
  - intros _. destruct (UnpinPage page_id is_dirty s) eqn:Hop; [|done].
    intros [= <-]. by eapply UnpinPage_tracking_inv.
  - intros _. destruct (FlushPage page_id s) eqn:Hop; [|done].
    intros [= <-]. by eapply FlushPage_tracking_inv.
  - intros _. destruct (DeletePage page_id s) eqn:Hop; [|done].
    intros [= <-]. by eapply DeletePage_tracking_inv.
  - intros [Hvalid Hfresh].
    destruct (NewPage s) as [r s2|] eqn:Hop; [|done]. intros [= <-].
    rewrite NewPage_unfold in Hop.
    destruct (GetVictimPage s) as [[f|] s1|a] eqn:Hv; simpl in Hop; [| |done].
    + injection Hop as <- <-.
      eapply (tracking_inv_install s s1 _ f
                (DiskManager.next_page_id_ (disk_manager_ s)));
        try done; simpl; done.
    + injection Hop as <- <-.
      by apply GetVictimPage_None_iff in Hv as (_ & _ & ->).
Qed.

Lemma well_behaved_tracking_inv (pool_size page_size : nat)
    (disk : DiskManager.t) (s : BufferPoolManager) :
  reachable_by well_behaved pool_size page_size disk s → tracking_inv s.
Proof.
  induction 1 as [|o s s' Hs IH Hok Hstep].
  - apply tracking_inv_new.
  - eapply step_tracking_inv; [|done..].
    by eapply reachable_by_pool_inv.
Qed.

(** ** Replacer membership *)


(** The second condition on the callers is needed as well: an id handed
    out by [AllocatePage] while it is resident takes over the entry of
    the frame that holds it. *)
Lemma replacer_tracks_shadowed :
  run [OpFetchPage 0; OpUnpinPage 0 false; OpNewPage] pool2
    = Some pool2_shadowed ∧
  0 ∈ replacer_ pool2_shadowed ∧
  ¬ Resident_Unpinned pool2_shadowed 0.
Proof.
  split; [vm_compute; reflexivity|]. split; [by left|].
  intros (p & [= <-] & _ & Htable & _). vm_compute in Htable. done.
Qed.




(** * Further properties of the operations *)

(** ** Invariants of every run *)

(** X1.  In every reachable state an entry of the page table points at a
    frame of the array and that frame carries the key as its id; so no
    two ids are mapped to the same frame. *)
Theorem page_table_single_residency (pool_size page_size : nat)
    (disk : DiskManager.t) (s : BufferPoolManager) :
  reachable pool_size page_size disk s →
  ∀ k1 k2 f,
    page_table_ s !! k1 = Some f → page_table_ s !! k2 = Some f →
    f < length (pages_ s) ∧ page_id_ (page_at s f) = k1 ∧ k1 = k2.
Proof.
  intros Hinv%reachable_by_pool_inv k1 k2 f Hk1 Hk2.
  destruct (inv_table _ Hinv _ _ Hk1) as [Hlt Hid1].
  destruct (inv_table _ Hinv _ _ Hk2) as [_ Hid2].
  split_and!; [done|done|congruence].
Qed.

Lemma page_table_single_residency_witness :
  1 < length (pages_ pool2_dirty_victim) ∧
  page_id_ (page_at pool2_dirty_victim 1) = 1%Z ∧ 1%Z = 1%Z.
Proof.
  apply (page_table_single_residency 2 4 DiskManager.empty pool2_dirty_victim
           pool2_dirty_victim_reachable 1%Z 1%Z 1); by vm_compute.
Defined.

(** X2.  In every reachable state the free list and the replacer hold no
    frame twice and share no frame, and no entry of the page table points
    at a frame of the free list. *)
Theorem free_list_replacer_disjoint (pool_size page_size : nat)
    (disk : DiskManager.t) (s : BufferPoolManager) :
  reachable pool_size page_size disk s →
  NoDup (free_list_ s) ∧ NoDup (replacer_ s) ∧
  ∀ f, f ∈ free_list_ s →
       (f ∉ replacer_ s) ∧ (∀ k, page_table_ s !! k ≠ Some f).
Proof.
  intros Hinv%reachable_by_pool_inv.
  split_and!; [apply Hinv|apply Hinv|].
  intros f Hf. by destruct (inv_free _ Hinv f Hf) as (_ & _ & ? & ?).
Qed.

Lemma free_list_replacer_disjoint_witness :
  NoDup (free_list_ pool1_deleted) ∧ NoDup (replacer_ pool1_deleted) ∧
  ∀ f, f ∈ free_list_ pool1_deleted →
       (f ∉ replacer_ pool1_deleted) ∧
       (∀ k, page_table_ pool1_deleted !! k ≠ Some f).
Proof.
  apply (free_list_replacer_disjoint 1 4 DiskManager.empty).
  apply (run_reachable 1 4 DiskManager.empty
           [OpNewPage; OpUnpinPage 0 false; OpDeletePage 0] pool1);
    [apply reachable_new|vm_compute; reflexivity].
Defined.

(** A run that stays within the allowed operations reaches what the
    allowed operations reach. *)
Lemma run_reachable_by (allowed : op → BufferPoolManager → Prop)
    (pool_size page_size : nat) (disk : DiskManager.t)
    (os : list op) (s s' : BufferPoolManager) :
  reachable_by allowed pool_size page_size disk s →
  run_allowed allowed os s → run os s = Some s' →
  reachable_by allowed pool_size page_size disk s'.
Proof.
  revert s. induction os as [|o os IH]; simpl; intros s Hs.
  - by intros _ [= <-].
  - intros [Hok Hrest]. destruct (step o s) as [s1|] eqn:Hstep; [|done].
    apply IH; [|done]. by eapply reachable_step.
Qed.

Lemma pin_bound_insert (s s' : BufferPoolManager) (f : nat) (p : Page) :
  pages_ s' = <[f := p]> (pages_ s) →
  (pin_count_ p ≤ INT_MAX)%Z →
  (∀ g, (pin_count_ (page_at s g) ≤ INT_MAX)%Z) →
  ∀ g, (pin_count_ (page_at s' g) ≤ INT_MAX)%Z.
Proof.
  intros Hpages Hp Hall g. rewrite (page_at_insert _ _ _ g _ Hpages).
  by case_decide.
Qed.

Lemma step_pin_bound (o : op) (s s' : BufferPoolManager) :
  (∀ g, (pin_count_ (page_at s g) ≤ INT_MAX)%Z) →
  no_overflow o s → step o s = Some s' →
  ∀ g, (pin_count_ (page_at s' g) ≤ INT_MAX)%Z.
Proof.
  intros Hall.
  destruct o as [page_id|page_id is_dirty|page_id|page_id|]; simpl.
  - destruct (page_table_ s !! page_id) as [f|] eqn:Hfind.
    + intros Hok. rewrite (FetchPage_hit _ _ _ Hfind). intros [= <-].
      eapply (pin_bound_insert s _ f); [done| |done]. simpl. lia.
    + intros _. rewrite (FetchPage_miss _ _ Hfind).
      destruct (GetVictimPage s) as [[f|] s1|a] eqn:Hv; simpl; [| |done].
      * intros [= <-]. by eapply (pin_bound_insert s _ f).
      * intros [= <-]. by apply GetVictimPage_None_iff in Hv as (_ & _ & ->).
  - intros _. unfold UnpinPage, ExtendibleHash.Find.
    destruct (page_table_ s !! page_id) as [f|]; [|by intros [= <-]].
    unfold GetPinCount; simpl.
    set (p1 := mkPage (page_id_ (page_at s f)) (pin_count_ (page_at s f))
                      is_dirty (data_ (page_at s f))).
    assert (H1 : ∀ g, (pin_count_ (page_at (store_page f p1 s) g) ≤ INT_MAX)%Z)
      by (eapply (pin_bound_insert s _ f p1); [done|apply Hall|done]).
    case_decide; [by intros [= <-]|].
    assert (H2 : ∀ q r,
              (pin_count_ q ≤ INT_MAX)%Z →
              ∀ g, (pin_count_
                      (page_at (set_replacer r (store_page f q (store_page f p1 s))) g)
                    ≤ INT_MAX)%Z).
    { intros q r Hq.
      by eapply (pin_bound_insert (store_page f p1 s) _ f q). }
    case_decide; intros [= <-].
    + apply H2. simpl. specialize (Hall f). lia.
    + eapply (pin_bound_insert (store_page f p1 s) _ f); [done| |done].
      simpl. specialize (Hall f). lia.
  - intros _. unfold FlushPage, ExtendibleHash.Find.
    destruct (page_table_ s !! page_id) as [f|]; [|by intros [= <-]].
    case_decide; [by intros [= <-]|].
    destruct (is_dirty_ (page_at s f)); intros [= <-]; [|done].
    eapply (pin_bound_insert s _ f); [done|simpl; apply Hall|done].
  - intros _. unfold DeletePage, ExtendibleHash.Find.
    destruct (page_table_ s !! page_id) as [f|]; [|by intros [= <-]].
    case_decide; intros [= <-]; [done|].
    eapply (pin_bound_insert s _ f); [done|simpl; apply Hall|done].
  - intros _. rewrite NewPage_unfold.
    destruct (GetVictimPage s) as [[f|] s1|a] eqn:Hv; simpl; [| |done].
    + intros [= <-]. by eapply (pin_bound_insert s _ f).
    + intros [= <-]. by apply GetVictimPage_None_iff in Hv as (_ & _ & ->).
Qed.

Lemma no_overflow_pin_bound (pool_size page_size : nat)
    (disk : DiskManager.t) (s : BufferPoolManager) :
  reachable_by no_overflow pool_size page_size disk s →
  ∀ g, (pin_count_ (page_at s g) ≤ INT_MAX)%Z.
Proof.
  induction 1 as [|o s s' _ IH Hok Hstep].
  - intros g. unfold page_at; simpl. rewrite list_lookup_total_alt.
    destruct (replicate pool_size (Page_new page_size) !! g) as [p|] eqn:Hp;
      [|done].
    apply lookup_replicate in Hp as [-> _]. done.
  - by eapply step_pin_bound.
Qed.

(** X3.  On runs in which no page is fetched while its pin count is at
    [INT_MAX], every pin count stays between 0 and [INT_MAX]: no
    sequence of such operations drives a pin count below zero or out of
    the range of [int]. *)
Theorem pin_count_never_negative (pool_size page_size : nat)
    (disk : DiskManager.t) (s : BufferPoolManager) :
  reachable_by no_overflow pool_size page_size disk s →
  ∀ f, (0 ≤ pin_count_ (page_at s f) ≤ INT_MAX)%Z.
Proof.
  intros Hreach f. split.
  - apply (reachable_by_pool_inv _ _ _ _ _ Hreach).
  - by apply (no_overflow_pin_bound _ _ _ _ Hreach).
Qed.

Lemma pool2_dirty_victim_no_overflow :
  reachable_by no_overflow 2 4 DiskManager.empty pool2_dirty_victim.
Proof.
  apply (run_reachable_by no_overflow 2 4 DiskManager.empty
           [OpNewPage; OpNewPage; OpUnpinPage 0 true] pool2).
  - apply reachable_new.
  - by vm_compute.
  - vm_compute. reflexivity.
Qed.

Lemma pin_count_never_negative_witness :
  (0 ≤ pin_count_ (page_at pool2_dirty_victim 1) ≤ INT_MAX)%Z.
Proof.
  apply (pin_count_never_negative 2 4 DiskManager.empty).
  exact pool2_dirty_victim_no_overflow.
Defined.

(** ** FetchPage and NewPage *)

(** X4.  A fetch that cannot be served has no effect: on a miss with the
    free list and the replacer both empty [FetchPage] returns no frame
    and the pool, the disk manager included, is as before; and whenever
    [FetchPage] returns no frame, the call was such a miss and nothing
    has changed. *)
Theorem FetchPage_exhausted (page_id : Z) (s : BufferPoolManager) :
  (page_table_ s !! page_id = None → free_list_ s = [] → replacer_ s = [] →
     FetchPage page_id s = Ret None s) ∧
  (∀ s', FetchPage page_id s = Ret None s' →
     s' = s ∧ page_table_ s !! page_id = None ∧
     free_list_ s = [] ∧ replacer_ s = []).
Proof.
  split.
  - intros Hmiss Hfree Hrepl. rewrite (FetchPage_miss _ _ Hmiss).
    by rewrite (proj2 (GetVictimPage_None_iff s s)).
  - intros s'. destruct (page_table_ s !! page_id) as [f|] eqn:Hfind.
    + by rewrite (FetchPage_hit _ _ _ Hfind).
    + rewrite (FetchPage_miss _ _ Hfind).
      destruct (GetVictimPage s) as [[f|] s1|a] eqn:Hv; simpl; [done| |done].
      intros [= <-]. by apply GetVictimPage_None_iff in Hv as (? & ? & ->).
Qed.

(** X5.  With the free list empty, a miss of [FetchPage] in a reachable
    state evicts the frame the replacer has tracked longest: it returns
    the head [f] of the replacer, which leaves the replacer, maps the
    requested id to [f], and drops the entry of the id that [f] held. *)
Theorem FetchPage_evicts_lru (pool_size page_size : nat)
    (disk : DiskManager.t) (s : BufferPoolManager)
    (page_id : Z) (f : nat) (r : list nat) :
  reachable pool_size page_size disk s →
  free_list_ s = [] → replacer_ s = f :: r →
  page_table_ s !! page_id = None →
  ∃ s', FetchPage page_id s = Ret (Some f) s' ∧
        replacer_ s' = r ∧ free_list_ s' = [] ∧
        page_table_ s' !! page_id = Some f ∧
        (page_id_ (page_at s f) ≠ page_id →
           page_table_ s' !! page_id_ (page_at s f) = None) ∧
        (∀ k, k ≠ page_id → k ≠ page_id_ (page_at s f) →
           page_table_ s' !! k = page_table_ s !! k).
Proof.
  intros Hinv%reachable_by_pool_inv Hfree Hrepl Hmiss.
  assert (Hv : GetVictimPage s = Ret (Some f) (set_replacer r s)).
  { unfold GetVictimPage, GetPinCount, LRUReplacer.Size, LRUReplacer.Victim.
    rewrite Hfree, Hrepl. simpl.
    change (page_at (set_replacer r s) f) with (page_at s f).
    rewrite decide_True; [done|].
    apply (inv_replacer _ Hinv). rewrite Hrepl. by left. }
  rewrite (FetchPage_miss _ _ Hmiss), Hv. simpl.
  eexists. split; [reflexivity|]. simpl. split_and!; try done.
  - apply lookup_insert_eq.
  - intros Hne. rewrite lookup_insert_ne by done. apply lookup_delete_eq.
  - intros k Hk1 Hk2. rewrite lookup_insert_ne by done.
    by rewrite lookup_delete_ne.
Qed.

Lemma FetchPage_evicts_lru_witness :
  ∃ s', FetchPage 7 pool2_dirty_victim = Ret (Some 0) s' ∧
        replacer_ s' = [] ∧ page_table_ s' !! 0%Z = None.
Proof.
  destruct (FetchPage_evicts_lru 2 4 DiskManager.empty pool2_dirty_victim
              7 0 [] pool2_dirty_victim_reachable)
    as (s' & Hs' & Hrepl & _ & _ & Hold & _);
    [reflexivity|reflexivity|by vm_compute|].
  exists s'. split_and!; [done|done|]. by apply Hold.
Defined.

(** X6.  On runs in which no page is fetched while its pin count is at
    [INT_MAX], a frame that [FetchPage] returns holds the requested page
    under a pin: the page table maps the id to it, it carries the id, its
    pin count is positive and within the range of [int], and it is on
    neither the free list nor the replacer, hence out of the reach of the
    victim selection.  After a hit the pin count is one more than before;
    after a miss it is 1 and the frame is clean. *)
Theorem FetchPage_returns_pinned (pool_size page_size : nat)
    (disk : DiskManager.t) (s s' : BufferPoolManager)
    (page_id : Z) (f : nat) :
  reachable_by no_overflow pool_size page_size disk s →
  no_overflow (OpFetchPage page_id) s →
  FetchPage page_id s = Ret (Some f) s' →
  page_table_ s' !! page_id = Some f ∧
  page_id_ (page_at s' f) = page_id ∧
  (0 < pin_count_ (page_at s' f) ≤ INT_MAX)%Z ∧
  (f ∉ free_list_ s') ∧ (f ∉ replacer_ s') ∧
  (page_table_ s !! page_id = Some f →
     pin_count_ (page_at s' f) = (pin_count_ (page_at s f) + 1)%Z) ∧
  (page_table_ s !! page_id = None →
     pin_count_ (page_at s' f) = 1%Z ∧ is_dirty_ (page_at s' f) = false).
Proof.
  intros Hreach Hok Hfetch.
  pose proof (reachable_by_pool_inv _ _ _ _ _ Hreach) as Hinv.
  pose proof (no_overflow_pin_bound _ _ _ _ Hreach) as Hbound.
  pose proof (FetchPage_pool_inv _ _ _ _ Hinv Hfetch) as Hinv'.
  assert (Hstep : step (OpFetchPage page_id) s = Some s')
    by (simpl; by rewrite Hfetch).
  pose proof (step_pin_bound _ _ _ Hbound Hok Hstep f) as Hbound'.
  assert (Hpost : page_table_ s' !! page_id = Some f ∧
            (0 < pin_count_ (page_at s' f))%Z ∧
            (page_table_ s !! page_id = Some f →
               pin_count_ (page_at s' f) = (pin_count_ (page_at s f) + 1)%Z) ∧
            (page_table_ s !! page_id = None →
               pin_count_ (page_at s' f) = 1%Z ∧
               is_dirty_ (page_at s' f) = false)).
  { destruct (page_table_ s !! page_id) as [g|] eqn:Hfind.
    - rewrite (FetchPage_hit _ _ _ Hfind) in Hfetch.
      injection Hfetch as <- <-. simpl.
      destruct (inv_table _ Hinv _ _ Hfind) as [Hlt _].
      pose proof (inv_pin _ Hinv g) as Hpos.
      unfold page_at in *; simpl.
      rewrite list_lookup_total_insert_eq by done. simpl.
      split_and!; [done|lia|done|done].
    - rewrite (FetchPage_miss _ _ Hfind) in Hfetch.
      destruct (GetVictimPage s) as [[g|] s1|a] eqn:Hv; simpl in Hfetch;
        [|done|done].
      injection Hfetch as <- <-. simpl.
      destruct (victim_facts _ _ _ Hinv Hv) as (Hlt & _).
      unfold page_at; simpl.
      rewrite list_lookup_total_insert_eq by done. simpl.
      split_and!; [apply lookup_insert_eq|done|done|done]. }
  destruct Hpost as (Htable & Hpin & Hhit & Hmiss).
  destruct (inv_table _ Hinv' _ _ Htable) as [_ Hid].
  split_and!; try done.
  - intros Hf. apply (inv_free _ Hinv') in Hf as (_ & _ & _ & Hf).
    by apply (Hf page_id).
  - intros Hf. apply (inv_replacer _ Hinv') in Hf as (_ & Hf). lia.
Qed.

Lemma FetchPage_returns_pinned_witness :
  ∃ s', FetchPage 1 pool2_dirty_victim = Ret (Some 1) s' ∧
        page_table_ s' !! 1%Z = Some 1 ∧
        pin_count_ (page_at s' 1) = 2%Z ∧
        (1 ∉ replacer_ s').
Proof.
  destruct (FetchPage 1 pool2_dirty_victim) as [[f|] s'|a] eqn:Hfetch;
    [|by vm_compute in Hfetch..].
  assert (f = 1) as -> by (vm_compute in Hfetch; by injection Hfetch).
  destruct (FetchPage_returns_pinned 2 4 DiskManager.empty pool2_dirty_victim
              s' 1 1 pool2_dirty_victim_no_overflow)
    as (Htable & _ & _ & _ & Hrepl & Hhit & _);
    [by vm_compute|exact Hfetch|].
  exists s'. split_and!; [done|exact Htable| |exact Hrepl].
  rewrite Hhit; [reflexivity|by vm_compute].
Defined.

(** X7.  A frame that [NewPage] returns in a reachable state holds a new
    page: its id is the one the disk manager had next, the page table maps
    this id to the frame, and the frame has pin count 1, is clean, has a
    zeroed buffer of the size it had, and is on neither the free list nor
    the replacer. *)
Theorem NewPage_returns_fresh (pool_size page_size : nat)
    (disk : DiskManager.t) (s s' : BufferPoolManager)
    (page_id : Z) (f : nat) :
  reachable pool_size page_size disk s →
  NewPage s = Ret (Some (f, page_id)) s' →
  page_id = DiskManager.next_page_id_ (disk_manager_ s) ∧
  DiskManager.next_page_id_ (disk_manager_ s') = (page_id + 1)%Z ∧
  page_table_ s' !! page_id = Some f ∧
  page_at s' f =
    mkPage page_id 1 false (replicate (length (data_ (page_at s f))) x00) ∧
  (f ∉ free_list_ s') ∧ (f ∉ replacer_ s').
Proof.
  intros Hinv%reachable_by_pool_inv Hnew.
  pose proof (NewPage_pool_inv _ _ _ Hinv Hnew) as Hinv'.
  rewrite NewPage_unfold in Hnew.
  destruct (GetVictimPage s) as [[g|] s1|a] eqn:Hv; simpl in Hnew;
    [|done|done].
  injection Hnew as <- <- <-.
  destruct (victim_facts _ _ _ Hinv Hv) as (Hlt & _).
  destruct (GetVictimPage_frame _ _ _ Hv) as (_ & _ & Hdisk).
  assert (Hpage : page_at
            (mkBPM (<[g := mkPage (DiskManager.next_page_id_ (disk_manager_ s)) 1
                              false (replicate (length (data_ (page_at s g))) x00)]>
                      (pages_ s))
                   (<[DiskManager.next_page_id_ (disk_manager_ s) := g]>
                      (delete (page_id_ (page_at s g)) (page_table_ s)))
                   (replacer_ s1) (free_list_ s1)
                   (disk_manager_
                      (write_back_if_dirty g
                         (set_disk (DiskManager.AllocatePage (disk_manager_ s)).2 s1))))
            g
          = mkPage (DiskManager.next_page_id_ (disk_manager_ s)) 1 false
                   (replicate (length (data_ (page_at s g))) x00)).
  { unfold page_at; simpl. by rewrite list_lookup_total_insert_eq. }
  simpl in *. split_and!; try done.
  - unfold write_back_if_dirty. by destruct (is_dirty_ _).
  - apply lookup_insert_eq.
  - intros Hf. apply (inv_free _ Hinv') in Hf as (_ & _ & _ & Hf).
    apply (Hf (DiskManager.next_page_id_ (disk_manager_ s))).
    apply lookup_insert_eq.
  - intros Hf. apply (inv_replacer _ Hinv') in Hf as (_ & Hf).
    rewrite Hpage in Hf. done.
Qed.

Lemma NewPage_returns_fresh_witness :
  0%Z = DiskManager.next_page_id_ (disk_manager_ pool1) ∧
  page_table_ pool1_pinned !! 0%Z = Some 0.
Proof.
  destruct (NewPage_returns_fresh 1 4 DiskManager.empty pool1 pool1_pinned 0 0)
    as (Hid & _ & Htable & _);
    [apply reachable_new|vm_compute; reflexivity|by split].
Defined.

(** ** What a pin protects *)

Lemma page_at_insert_ne (s s' : BufferPoolManager) (f g : nat) (p : Page) :
  pages_ s' = <[f := p]> (pages_ s) → f ≠ g → page_at s' g = page_at s g.
Proof.
  intros Hpages Hne. rewrite (page_at_insert _ _ _ g _ Hpages).
  case_decide as Hfg; [|done]. by destruct Hfg.
Qed.

(** Rewriting a frame with the id and the buffer it had keeps the id and
    the buffer of every frame. *)
Lemma page_at_insert_same (s s' : BufferPoolManager) (f g : nat) (p : Page) :
  pages_ s' = <[f := p]> (pages_ s) →
  page_id_ p = page_id_ (page_at s f) → data_ p = data_ (page_at s f) →
  page_id_ (page_at s' g) = page_id_ (page_at s g) ∧
  data_ (page_at s' g) = data_ (page_at s g).
Proof.
  intros Hpages Hid Hdata. rewrite (page_at_insert _ _ _ g _ Hpages).
  case_decide as Hfg; [|done]. by destruct Hfg as [-> _].
Qed.

(** X8.  While a frame has a positive pin count no operation that returns
    changes the id it carries or a byte of its buffer, whatever the
    operation and its arguments: [FetchPage] and [NewPage] recycle other
    frames, [DeletePage] refuses, [UnpinPage] and [FlushPage] touch the
    pin count and the dirty flag only. *)
Theorem pinned_frame_stable (o : op) (s s' : BufferPoolManager) (g : nat) :
  (0 < pin_count_ (page_at s g))%Z →
  step o s = Some s' →
  page_id_ (page_at s' g) = page_id_ (page_at s g) ∧
  data_ (page_at s' g) = data_ (page_at s g).
Proof.
  intros Hpin.
  assert (Hvictim : ∀ f s1, GetVictimPage s = Ret (Some f) s1 → f ≠ g).
  { intros f s1 [(? & _)|[(f' & rest & [= <-] & _ & _ & _ & Hf)
                         |(f' & r & [= <-] & _ & _ & _ & Hf)]]%GetVictimPage_Ret;
      [done| |]; intros ->; lia. }
  destruct o as [page_id|page_id is_dirty|page_id|page_id|]; simpl.
  - destruct (page_table_ s !! page_id) as [f|] eqn:Hfind.
    + rewrite (FetchPage_hit _ _ _ Hfind). simpl. intros [= <-].
      by eapply page_at_insert_same.
    + rewrite (FetchPage_miss _ _ Hfind).
      destruct (GetVictimPage s) as [[f|] s1|a] eqn:Hv; simpl; [| |done].
      * intros [= <-]. erewrite page_at_insert_ne; [done|done|by eapply Hvictim].
      * intros [= <-]. by apply GetVictimPage_None_iff in Hv as (_ & _ & ->).
  - unfold UnpinPage, ExtendibleHash.Find.
    destruct (page_table_ s !! page_id) as [f|]; [|by intros [= <-]].
    unfold GetPinCount; simpl.
    assert (Hsame : ∀ q1 q2 : Page,
              page_id_ q1 = page_id_ (page_at s f) → data_ q1 = data_ (page_at s f) →
              page_id_ q2 = page_id_ (page_at s f) → data_ q2 = data_ (page_at s f) →
              page_id_ (<[f := q2]> (<[f := q1]> (pages_ s)) !!! g)
                = page_id_ (page_at s g) ∧
              data_ (<[f := q2]> (<[f := q1]> (pages_ s)) !!! g)
                = data_ (page_at s g)).
    { intros q1 q2 Hi1 Hd1 Hi2 Hd2. unfold page_at in *.
      rewrite !list_lookup_total_insert.
      repeat case_decide; destruct_and?; subst; done. }
    case_decide; [intros [= <-]; by eapply page_at_insert_same|].
    case_decide; intros [= <-]; unfold page_at at 1 3; simpl; by apply Hsame.
  - unfold FlushPage, ExtendibleHash.Find.
    destruct (page_table_ s !! page_id) as [f|]; [|by intros [= <-]].
    case_decide; [by intros [= <-]|].
    destruct (is_dirty_ (page_at s f)); [|by intros [= <-]].
    simpl. intros [= <-]. by eapply page_at_insert_same.
  - unfold DeletePage, ExtendibleHash.Find.
    destruct (page_table_ s !! page_id) as [f|]; [|by intros [= <-]].
    unfold GetPinCount. case_decide as Hf; [by intros [= <-]|].
    simpl. intros [= <-].
    erewrite page_at_insert_ne; [done|done|]. intros ->. lia.
  - rewrite NewPage_unfold.
    destruct (GetVictimPage s) as [[f|] s1|a] eqn:Hv; simpl; [| |done].
    + intros [= <-]. erewrite page_at_insert_ne; [done|done|by eapply Hvictim].
    + intros [= <-]. by apply GetVictimPage_None_iff in Hv as (_ & _ & ->).
Qed.

Lemma pinned_frame_stable_witness :
  ∃ s', step (OpFetchPage 7) pool2_dirty_victim = Some s' ∧
        page_id_ (page_at s' 1) = page_id_ (page_at pool2_dirty_victim 1) ∧
        data_ (page_at s' 1) = data_ (page_at pool2_dirty_victim 1).
Proof.
  destruct (step (OpFetchPage 7) pool2_dirty_victim) as [s'|] eqn:Hstep;
    [|by vm_compute in Hstep].
  exists s'. split; [done|].
  apply (pinned_frame_stable (OpFetchPage 7) pool2_dirty_victim s' 1);
    [by vm_compute|exact Hstep].
Defined.

(** X9.  Under callers that only fetch valid ids, with fresh ids from
    [AllocatePage], a page with a positive pin count stays resident in
    its frame through every operation that returns. *)
Theorem pinned_page_stays_resident (pool_size page_size : nat)
    (disk : DiskManager.t) (o : op) (s s' : BufferPoolManager)
    (k : Z) (g : nat) :
  reachable_by well_behaved pool_size page_size disk s →
  well_behaved o s →
  page_table_ s !! k = Some g →
  (0 < pin_count_ (page_at s g))%Z →
  step o s = Some s' →
  page_table_ s' !! k = Some g.
Proof.
  intros Hreach Hok Hk Hpin.
  pose proof (reachable_by_pool_inv _ _ _ _ _ Hreach) as Hinv.
  pose proof (well_behaved_tracking_inv _ _ _ _ Hreach) as Htrk.
  assert (Hinstall : ∀ f s1 page_id,
            GetVictimPage s = Ret (Some f) s1 →
            page_table_ s !! page_id = None →
            <[page_id := f]> (delete (page_id_ (page_at s f)) (page_table_ s)) !! k
              = Some g).
  { intros f s1 page_id Hv Hfresh.
    assert (f ≠ g).
    { apply GetVictimPage_Ret in Hv
        as [(? & _)|[(f' & rest & [= <-] & _ & _ & _ & Hf)
                    |(f' & r & [= <-] & _ & _ & _ & Hf)]];
        [done| |]; intros ->; lia. }
    destruct (victim_tracking_facts _ _ _ Hinv Htrk Hv) as (_ & HT2).
    rewrite lookup_insert_ne by congruence.
    rewrite lookup_delete_ne; [done|].
    intros Heq. by apply (HT2 _ _ Hk). }
  destruct o as [page_id|page_id is_dirty|page_id|page_id|]; simpl.
  - destruct (page_table_ s !! page_id) as [f|] eqn:Hfind.
    + rewrite (FetchPage_hit _ _ _ Hfind). simpl. by intros [= <-].
    + rewrite (FetchPage_miss _ _ Hfind).
      destruct (GetVictimPage s) as [[f|] s1|a] eqn:Hv; simpl; [| |done].
      * intros [= <-]. simpl. by eapply Hinstall.
      * intros [= <-]. by apply GetVictimPage_None_iff in Hv as (_ & _ & ->).
  - unfold UnpinPage, ExtendibleHash.Find.
    destruct (page_table_ s !! page_id) as [f|]; [|by intros [= <-]].
    repeat case_decide; by intros [= <-].
  - unfold FlushPage, ExtendibleHash.Find.
    destruct (page_table_ s !! page_id) as [f|]; [|by intros [= <-]].
    case_decide; [by intros [= <-]|].
    destruct (is_dirty_ (page_at s f)); by intros [= <-].
  - unfold DeletePage, ExtendibleHash.Find, ExtendibleHash.Remove.
    destruct (page_table_ s !! page_id) as [f|] eqn:Hfind; [|by intros [= <-]].
    unfold GetPinCount. case_decide as Hf; [by intros [= <-]|].
    intros [= <-]. simpl. rewrite lookup_delete_ne; [done|].
    intros ->. rewrite Hk in Hfind. injection Hfind as ->. lia.
  - destruct Hok as [_ Hfresh]. rewrite NewPage_unfold.
    destruct (GetVictimPage s) as [[f|] s1|a] eqn:Hv; simpl; [| |done].
    + intros [= <-]. simpl. by eapply Hinstall.
    + intros [= <-]. by apply GetVictimPage_None_iff in Hv as (_ & _ & ->).
Qed.

Lemma pool2_dirty_victim_well_behaved :
  reachable_by well_behaved 2 4 DiskManager.empty pool2_dirty_victim.
Proof.
  apply (run_reachable_by well_behaved 2 4 DiskManager.empty
           [OpNewPage; OpNewPage; OpUnpinPage 0 true] pool2).
  - apply reachable_new.
  - by vm_compute.
  - vm_compute. reflexivity.
Qed.

Lemma pinned_page_stays_resident_witness :
  ∃ s', step (OpFetchPage 7) pool2_dirty_victim = Some s' ∧
        page_table_ s' !! 0%Z = None ∧
        page_table_ s' !! 1%Z = Some 1.
Proof.
  destruct (step (OpFetchPage 7) pool2_dirty_victim) as [s'|] eqn:Hstep;
    [|by vm_compute in Hstep].
  exists s'. split_and!; [done| |].
  - vm_compute in Hstep. by injection Hstep as <-.
  - apply (pinned_page_stays_resident 2 4 DiskManager.empty (OpFetchPage 7)
             pool2_dirty_victim s' 1 1 pool2_dirty_victim_well_behaved);
      [by vm_compute|by vm_compute|by vm_compute|exact Hstep].
Defined.

(** ** UnpinPage and FlushPage *)

(** X10.  In a reachable state [UnpinPage] returns true exactly when the
    id is resident in a frame with a positive pin count.  It then takes
    one pin off that frame and stores the argument as its dirty flag; the
    frame joins the replacer, behind every tracked frame, when that was
    the last pin, and the replacer is as before otherwise.  The page
    table, the free list, the other frames and the disk manager are never
    touched. *)
Theorem UnpinPage_spec (pool_size page_size : nat) (disk : DiskManager.t)
    (s : BufferPoolManager) (page_id : Z) (is_dirty : bool) :
  reachable pool_size page_size disk s →
  ∃ (b : bool) (s' : BufferPoolManager),
    UnpinPage page_id is_dirty s = Ret b s' ∧
    (b = true ↔
       ∃ f, page_table_ s !! page_id = Some f ∧
            (0 < pin_count_ (page_at s f))%Z) ∧
    page_table_ s' = page_table_ s ∧
    free_list_ s' = free_list_ s ∧
    disk_manager_ s' = disk_manager_ s ∧
    (∀ g, page_table_ s !! page_id ≠ Some g → page_at s' g = page_at s g) ∧
    (∀ f, b = true → page_table_ s !! page_id = Some f →
       page_at s' f =
         mkPage (page_id_ (page_at s f)) (pin_count_ (page_at s f) - 1)
                is_dirty (data_ (page_at s f)) ∧
       replacer_ s' =
         if decide (pin_count_ (page_at s f) = 1%Z)
         then replacer_ s ++ [f] else replacer_ s).
Proof.
  intros Hinv%reachable_by_pool_inv.
  unfold UnpinPage, ExtendibleHash.Find.
  destruct (page_table_ s !! page_id) as [f|] eqn:Hfind.
  2:{ exists false, s. split; [done|]. split; [|done].
      split; [done|]. intros (f & ? & _). done. }
  destruct (inv_table _ Hinv _ _ Hfind) as [Hlt _].
  unfold GetPinCount; simpl.
  set (p := page_at s f).
  assert (Hother : ∀ (q1 q2 : Page) g, Some f ≠ Some g →
            <[f := q2]> (<[f := q1]> (pages_ s)) !!! g = page_at s g).
  { intros q1 q2 g Hg. unfold page_at.
    rewrite !list_lookup_total_insert_ne; [done|congruence..]. }
  assert (Hthis : ∀ q1 q2 : Page,
            <[f := q2]> (<[f := q1]> (pages_ s)) !!! f = q2).
  { intros q1 q2. rewrite list_lookup_total_insert_eq; [done|].
    by rewrite length_insert. }
  case_decide as Hpin.
  - eexists false, _. split; [reflexivity|]. simpl. split.
    { split; [done|]. intros (f' & [= <-] & Hpos). fold p in Hpos. lia. }
    split_and!; try done.
    intros g Hg. unfold page_at at 1; simpl.
    rewrite list_lookup_total_insert_ne; [done|congruence].
  - assert (Hnr : f ∉ replacer_ s).
    { intros Hr. apply (inv_replacer _ Hinv) in Hr as [_ Hr]. fold p in Hr. lia. }
    assert (Hiff : true = true ↔
              ∃ f0, Some f = Some f0 ∧ (0 < pin_count_ (page_at s f0))%Z).
    { split; [|done]. intros _. exists f. split; [done|]. fold p. lia. }
    case_decide as Hzero; simpl in Hzero.
    + eexists true, _. split; [reflexivity|]. simpl. split; [exact Hiff|].
      split_and!; try done.
      * intros g Hg. unfold page_at at 1; simpl. by apply Hother.
      * intros f' _ [= <-]. unfold page_at at 1; simpl. rewrite Hthis.
        split; [done|]. fold p. rewrite decide_True by lia.
        unfold LRUReplacer.Insert. by rewrite decide_False.
    + eexists true, _. split; [reflexivity|]. simpl. split; [exact Hiff|].
      split_and!; try done.
      * intros g Hg. unfold page_at at 1; simpl. by apply Hother.
      * intros f' _ [= <-]. unfold page_at at 1; simpl. rewrite Hthis.
        split; [done|]. fold p. rewrite decide_False by lia. done.
Qed.

Lemma UnpinPage_spec_witness :
  ∃ (b : bool) (s' : BufferPoolManager),
    UnpinPage 1 false pool2_dirty_victim = Ret b s' ∧ replacer_ s' = [0; 1].
Proof.
  destruct (UnpinPage_spec 2 4 DiskManager.empty pool2_dirty_victim 1 false
              pool2_dirty_victim_reachable)
    as (b & s' & Hs' & Hb & _ & _ & _ & _ & Hthis).
  exists b, s'. split; [exact Hs'|].
  destruct (Hthis 1) as [_ Hrepl]; [|by vm_compute|exact Hrepl].
  apply Hb. exists 1. split; by vm_compute.
Defined.




(** X12.  Flushing twice writes once: in a reachable state a second
    [FlushPage] of the same id returns what the first returned and
    changes nothing, the list of disk calls included. *)
Theorem FlushPage_idempotent (pool_size page_size : nat)
    (disk : DiskManager.t) (s s' : BufferPoolManager)
    (page_id : Z) (b : bool) :
  reachable pool_size page_size disk s →
  FlushPage page_id s = Ret b s' →
  FlushPage page_id s' = Ret b s'.
Proof.
  intros Hinv%reachable_by_pool_inv.
  unfold FlushPage at 1. unfold ExtendibleHash.Find.
  destruct (page_table_ s !! page_id) as [f|] eqn:Hfind.
  2:{ intros [= <- <-]. unfold FlushPage, ExtendibleHash.Find. by rewrite Hfind. }
  destruct (inv_table _ Hinv _ _ Hfind) as [Hlt _].
  case_decide as Hid.
  { intros [= <- <-]. unfold FlushPage, ExtendibleHash.Find.
    rewrite Hfind. by rewrite decide_True. }
  destruct (is_dirty_ (page_at s f)) eqn:Hdirty.
  - intros [= <- <-].
    set (q := mkPage (page_id_ (page_at s f)) (pin_count_ (page_at s f)) false
                     (data_ (page_at s f))).
    set (s1 := store_page f q
                 (set_disk (DiskManager.WritePage page_id (data_ (page_at s f))
                              (disk_manager_ s)) s)).
    assert (Hq : page_at s1 f = q).
    { unfold page_at, s1; simpl. by rewrite list_lookup_total_insert_eq. }
    unfold FlushPage, ExtendibleHash.Find.
    change (page_table_ s1) with (page_table_ s). rewrite Hfind, Hq. simpl.
    by rewrite decide_False.
  - intros [= <- <-]. unfold FlushPage, ExtendibleHash.Find.
    rewrite Hfind, Hdirty. by rewrite decide_False.
Qed.

Lemma FlushPage_idempotent_witness :
  ∃ s', FlushPage 0 pool2_dirty_victim = Ret true s' ∧
        FlushPage 0 s' = Ret true s'.
Proof.
  destruct (FlushPage 0 pool2_dirty_victim) as [b s'|a] eqn:Hflush;
    [|by vm_compute in Hflush].
  assert (b = true) as -> by (vm_compute in Hflush; by injection Hflush).
  exists s'. split; [done|].
  exact (FlushPage_idempotent 2 4 DiskManager.empty pool2_dirty_victim s' 0 true
           pool2_dirty_victim_reachable Hflush).
Defined.

(** ** DeletePage *)

(** X13.  Deleting a resident page without pins in a reachable state
    returns true and frees its frame: the entry leaves the page table,
    the frame leaves the replacer and goes to the back of the free list
    with a zeroed buffer of the same size and a cleared dirty flag, and it
    keeps the id and the pin count it had.  Nothing is written to the
    disk, so the contents of a dirty page are dropped; the one disk call
    is [DeallocatePage].  Afterwards the id is no longer known:
    [UnpinPage] and [FlushPage] on it return false and change nothing. *)
Theorem DeletePage_frees_frame (pool_size page_size : nat)
    (disk : DiskManager.t) (s : BufferPoolManager) (page_id : Z) (f : nat) :
  reachable pool_size page_size disk s →
  page_table_ s !! page_id = Some f →
  pin_count_ (page_at s f) = 0%Z →
  ∃ s', DeletePage page_id s = Ret true s' ∧
        page_table_ s' = delete page_id (page_table_ s) ∧
        free_list_ s' = free_list_ s ++ [f] ∧
        (f ∉ replacer_ s') ∧
        (∀ g, g ≠ f → (g ∈ replacer_ s' ↔ g ∈ replacer_ s) ∧
                      page_at s' g = page_at s g) ∧
        page_at s' f =
          mkPage (page_id_ (page_at s f)) 0 false
                 (replicate (length (data_ (page_at s f))) x00) ∧
        DiskManager.contents (disk_manager_ s') =
          DiskManager.contents (disk_manager_ s) ∧
        DiskManager.calls (disk_manager_ s') =
          DiskManager.calls (disk_manager_ s) ++ [CallDeallocatePage page_id] ∧
        (∀ is_dirty, UnpinPage page_id is_dirty s' = Ret false s') ∧
        FlushPage page_id s' = Ret false s'.
Proof.
  intros Hinv%reachable_by_pool_inv Hfind Hpin.
  destruct (inv_table _ Hinv _ _ Hfind) as [Hlt _].
  unfold DeletePage, ExtendibleHash.Find, ExtendibleHash.Remove.
  rewrite Hfind. unfold GetPinCount. rewrite decide_False by lia.
  eexists. split; [reflexivity|]. simpl.
  split_and!; try done.
  - rewrite Erase_elem_of. tauto.
  - intros g Hg. split.
    + rewrite Erase_elem_of. tauto.
    + unfold page_at; simpl. by rewrite list_lookup_total_insert_ne.
  - unfold page_at; simpl. rewrite list_lookup_total_insert_eq by done.
    unfold ResetMemory; simpl. unfold page_at in Hpin. by rewrite Hpin.
  - intros is_dirty. unfold UnpinPage, ExtendibleHash.Find. simpl.
    by rewrite lookup_delete_eq.
  - unfold FlushPage, ExtendibleHash.Find. simpl.
    by rewrite lookup_delete_eq.
Qed.

Lemma DeletePage_frees_frame_witness :
  ∃ s', DeletePage 0 pool1_unpinned = Ret true s' ∧
        free_list_ s' = [0] ∧ FlushPage 0 s' = Ret false s'.
Proof.
  destruct (DeletePage_frees_frame 1 4 DiskManager.empty pool1_unpinned 0 0)
    as (s' & Hdel & _ & Hfree & _ & _ & _ & _ & _ & _ & Hflush).
  - apply (run_reachable 1 4 DiskManager.empty
             [OpNewPage; OpUnpinPage 0 false] pool1);
      [apply reachable_new|vm_compute; reflexivity].
  - by vm_compute.
  - reflexivity.
  - exists s'. split_and!; [exact Hdel|exact Hfree|exact Hflush].
Defined.

(** ** Capacity *)

(** [NewPage] on a pool whose free list is the run of frames [k], [k+1],
    ..., all carrying [INVALID_PAGE_ID] without pins: the frames are used
    up in this order. *)
Lemma run_NewPage_free_frames (m k : nat) (s : BufferPoolManager) :
  free_list_ s = seq k m →
  k + m ≤ length (pages_ s) →
  (∀ f, k ≤ f < k + m →
     page_id_ (page_at s f) = INVALID_PAGE_ID ∧ pin_count_ (page_at s f) = 0%Z) →
  ∃ s', run (replicate m OpNewPage) s = Some s' ∧
        free_list_ s' = [] ∧ replacer_ s' = replacer_ s ∧
        length (pages_ s') = length (pages_ s) ∧
        (∀ f, k ≤ f < k + m →
           page_id_ (page_at s' f) =
             (DiskManager.next_page_id_ (disk_manager_ s) + Z.of_nat (f - k))%Z ∧
           pin_count_ (page_at s' f) = 1%Z) ∧
        (∀ f, ¬ (k ≤ f < k + m) → page_at s' f = page_at s f).
Proof.
  revert k s. induction m as [|m IH]; intros k s Hfree Hlen Hfresh.
  - exists s. simpl. split_and!; try done. intros f ?. lia.
  - simpl in Hfree.
    assert (Hv : GetVictimPage s = Ret (Some k) (set_free_list (seq (S k) m) s)).
    { unfold GetVictimPage, GetPageId, GetPinCount. rewrite Hfree.
      change (page_at (set_free_list (seq (S k) m) s) k) with (page_at s k).
      destruct (Hfresh k) as [Hid Hpin]; [lia|].
      by rewrite !decide_True. }
    pose proof (NewPage_unfold s) as Hnew. rewrite Hv in Hnew. simpl in Hnew.
    match type of Hnew with _ = Ret _ ?st => set (s1 := st) in * end.
    assert (Hnext : DiskManager.next_page_id_ (disk_manager_ s1) =
                    (DiskManager.next_page_id_ (disk_manager_ s) + 1)%Z).
    { unfold s1, write_back_if_dirty; simpl. by destruct (is_dirty_ _). }
    assert (Hk : page_at s1 k =
              mkPage (DiskManager.next_page_id_ (disk_manager_ s)) 1 false
                     (replicate (length (data_ (page_at s k))) x00)).
    { unfold page_at, s1; simpl. rewrite list_lookup_total_insert_eq; [done|lia]. }
    assert (Hother : ∀ f, f ≠ k → page_at s1 f = page_at s f).
    { intros f Hf. unfold page_at, s1; simpl.
      by rewrite list_lookup_total_insert_ne. }
    destruct (IH (S k) s1) as (s' & Hrun & Hfree' & Hrepl' & Hlen' & Hnew' & Hold').
    + done.
    + unfold s1; simpl. rewrite length_insert. lia.
    + intros f Hf. rewrite Hother by lia. apply Hfresh. lia.
    + exists s'. simpl. rewrite Hnew. simpl. split_and!; try done.
      * rewrite Hlen'. unfold s1; simpl. apply length_insert.
      * intros f Hf. destruct (decide (f = k)) as [->|Hne].
        -- rewrite Hold' by lia. rewrite Hk. simpl.
           split; [|done]. rewrite Nat.sub_diag. simpl. lia.
        -- destruct (Hnew' f) as [Hid Hpin]; [lia|].
           split; [|done]. rewrite Hid, Hnext. lia.
      * intros f Hf. rewrite Hold' by lia. apply Hother. lia.
Qed.

(** X14.  A pool of [pool_size] frames serves exactly [pool_size] calls
    of [NewPage] in a row: the calls take the frames in the order of the
    array, frame [f] receives the id that is [f] steps after the first id
    of the disk manager and has one pin; after that the pool is exhausted,
    so [NewPage] and [FetchPage] of any id that is not resident return no
    frame and leave the pool as it is. *)
Theorem NewPage_capacity (pool_size page_size : nat) (disk : DiskManager.t) :
  ∃ s', run (replicate pool_size OpNewPage)
            (BufferPoolManager_new pool_size page_size disk) = Some s' ∧
        (∀ f, f < pool_size →
           page_id_ (page_at s' f) =
             (DiskManager.next_page_id_ disk + Z.of_nat f)%Z ∧
           pin_count_ (page_at s' f) = 1%Z) ∧
        NewPage s' = Ret None s' ∧
        (∀ page_id, page_table_ s' !! page_id = None →
           FetchPage page_id s' = Ret None s').
Proof.
  destruct (run_NewPage_free_frames pool_size 0
              (BufferPoolManager_new pool_size page_size disk))
    as (s' & Hrun & Hfree & Hrepl & _ & Hnew & _).
  - done.
  - simpl. by rewrite length_replicate.
  - intros f Hf. unfold page_at; simpl.
    rewrite list_lookup_total_alt, lookup_replicate_2 by lia. done.
  - exists s'. simpl in Hrepl. split_and!; [done| | |].
    + intros f Hf. destruct (Hnew f) as [Hid Hpin]; [lia|].
      rewrite Nat.sub_0_r in Hid. done.
    + rewrite NewPage_unfold.
      by rewrite (proj2 (GetVictimPage_None_iff s' s')).
    + intros page_id Hmiss. rewrite (FetchPage_miss _ _ Hmiss).
      by rewrite (proj2 (GetVictimPage_None_iff s' s')).
Qed.

(** ** The frames of the array *)








(** ** Disk traffic *)

Lemma write_back_if_dirty_calls (f : nat) (s : BufferPoolManager) :
  DiskManager.calls (disk_manager_ (write_back_if_dirty f s)) =
    DiskManager.calls (disk_manager_ s) ++
    (if is_dirty_ (page_at s f)
     then [CallWritePage (page_id_ (page_at s f)) (data_ (page_at s f))]
     else []).
Proof.
  unfold write_back_if_dirty, GetPageId.
  destruct (is_dirty_ (page_at s f)); simpl; [done|by rewrite app_nil_r].
Qed.

(** X16.  An operation that returns in a reachable state only appends to
    the calls the disk manager has received, and every [WritePage] among
    the calls it adds carries the id and the buffer of a frame that was
    dirty before the operation and is clean after it.  No clean frame is
    ever written, and [UnpinPage] and a hit of [FetchPage] make no disk
    call at all. *)
Theorem writes_only_dirty_frames (pool_size page_size : nat)
    (disk : DiskManager.t) (o : op) (s s' : BufferPoolManager) :
  reachable pool_size page_size disk s →
  step o s = Some s' →
  ∃ l, DiskManager.calls (disk_manager_ s') =
         DiskManager.calls (disk_manager_ s) ++ l ∧
       (∀ page_id buf, CallWritePage page_id buf ∈ l →
          ∃ f, is_dirty_ (page_at s f) = true ∧
               page_id_ (page_at s f) = page_id ∧
               data_ (page_at s f) = buf ∧
               is_dirty_ (page_at s' f) = false) ∧
       match o with
       | OpUnpinPage _ _ => l = []
       | OpFetchPage page_id =>
           is_Some (page_table_ s !! page_id) → l = []
       | _ => True
       end.
Proof.
  intros Hinv%reachable_by_pool_inv.
  assert (Hnone : ∀ P : list disk_call → Prop, P [] →
            ∃ l, DiskManager.calls (disk_manager_ s) =
                   DiskManager.calls (disk_manager_ s) ++ l ∧
                 (∀ page_id buf, CallWritePage page_id buf ∈ l →
                    ∃ f, is_dirty_ (page_at s f) = true ∧
                         page_id_ (page_at s f) = page_id ∧
                         data_ (page_at s f) = buf ∧
                         is_dirty_ (page_at s f) = false) ∧ P l).
  { intros P HP. exists []. split_and!; [by rewrite app_nil_r| |done].
    intros ? ? []%elem_of_nil. }
  assert (Hwb : ∀ f page_id buf,
            CallWritePage page_id buf ∈
              (if is_dirty_ (page_at s f)
               then [CallWritePage (page_id_ (page_at s f)) (data_ (page_at s f))]
               else []) →
            is_dirty_ (page_at s f) = true ∧
            page_id_ (page_at s f) = page_id ∧ data_ (page_at s f) = buf).
  { intros f page_id buf. destruct (is_dirty_ (page_at s f)).
    - by intros [= -> ->]%list_elem_of_singleton.
    - by intros []%elem_of_nil. }
  destruct o as [page_id|page_id is_dirty|page_id|page_id|]; simpl.
  - destruct (page_table_ s !! page_id) as [f|] eqn:Hfind.
    + rewrite (FetchPage_hit _ _ _ Hfind). intros [= <-]. simpl.
      exists []. split_and!; [by rewrite app_nil_r| |done].
      intros ? ? []%elem_of_nil.
    + rewrite (FetchPage_miss _ _ Hfind).
      destruct (GetVictimPage s) as [[f|] s1|a] eqn:Hv; simpl; [| |done].
      * intros [= <-]. simpl.
        destruct (victim_facts _ _ _ Hinv Hv) as (Hlt & _).
        destruct (GetVictimPage_frame _ _ _ Hv) as (Hpages & _ & Hdisk).
        assert (Hp : page_at s1 f = page_at s f)
          by (unfold page_at; by rewrite Hpages).
        rewrite write_back_if_dirty_calls, Hp, Hdisk, <- app_assoc.
        eexists. split; [reflexivity|]. split; [|by intros [? [=]]].
        intros i b [Hin|[=]%list_elem_of_singleton]%elem_of_app.
        destruct (Hwb _ _ _ Hin) as (? & ? & ?). exists f.
        split_and!; try done. unfold page_at at 1; simpl.
        by rewrite list_lookup_total_insert_eq.
      * intros [= <-]. apply GetVictimPage_None_iff in Hv as (_ & _ & ->).
        by apply (Hnone (λ l, is_Some None → l = [])).
  - unfold UnpinPage, ExtendibleHash.Find.
    destruct (page_table_ s !! page_id) as [f|];
      [|intros [= <-]; by apply (Hnone (λ l, l = []))].
    repeat case_decide; intros [= <-]; simpl;
      (exists []; split_and!; [by rewrite app_nil_r| |done];
       intros ? ? []%elem_of_nil).
  - unfold FlushPage, ExtendibleHash.Find.
    destruct (page_table_ s !! page_id) as [f|] eqn:Hfind;
      [|intros [= <-]; by apply (Hnone (λ _, True))].
    destruct (inv_table _ Hinv _ _ Hfind) as [Hlt Hid].
    case_decide; [intros [= <-]; by apply (Hnone (λ _, True))|].
    destruct (is_dirty_ (page_at s f)) eqn:Hdirty; intros [= <-]; simpl;
      [|by apply (Hnone (λ _, True))].
    exists [CallWritePage page_id (data_ (page_at s f))].
    split_and!; [done| |done].
    intros i b [= -> ->]%list_elem_of_singleton. exists f.
    split_and!; try done. unfold page_at at 1; simpl.
    by rewrite list_lookup_total_insert_eq.
  - unfold DeletePage, ExtendibleHash.Find.
    destruct (page_table_ s !! page_id) as [f|].
    2:{ intros [= <-]. simpl. exists [CallDeallocatePage page_id].
        split_and!; [done| |done].
        intros i b [=]%list_elem_of_singleton. }
    case_decide; intros [= <-]; simpl; [by apply (Hnone (λ _, True))|].
    exists [CallDeallocatePage page_id]. split_and!; [done| |done].
    intros i b [=]%list_elem_of_singleton.
  - rewrite NewPage_unfold.
    destruct (GetVictimPage s) as [[f|] s1|a] eqn:Hv; simpl; [| |done].
    + intros [= <-]. simpl.
      destruct (victim_facts _ _ _ Hinv Hv) as (Hlt & _).
      destruct (GetVictimPage_frame _ _ _ Hv) as (Hpages & _ & Hdisk).
      assert (Hp : ∀ d, page_at (set_disk d s1) f = page_at s f)
        by (intros d; unfold page_at; simpl; by rewrite Hpages).
      rewrite write_back_if_dirty_calls, Hp. simpl. rewrite <- app_assoc.
      eexists. split; [reflexivity|]. split; [|done].
      intros i b [[=]%list_elem_of_singleton|Hin]%elem_of_app.
      destruct (Hwb _ _ _ Hin) as (? & ? & ?). exists f.
      split_and!; try done. unfold page_at at 1; simpl.
      by rewrite list_lookup_total_insert_eq.
    + intros [= <-]. apply GetVictimPage_None_iff in Hv as (_ & _ & ->).
      by apply (Hnone (λ _, True)).
Qed.

Lemma writes_only_dirty_frames_witness :
  ∃ s' l, step (OpFetchPage 7) pool2_dirty_victim = Some s' ∧
          DiskManager.calls (disk_manager_ s') =
            DiskManager.calls (disk_manager_ pool2_dirty_victim) ++ l.
Proof.
  destruct (step (OpFetchPage 7) pool2_dirty_victim) as [s'|] eqn:Hstep;
    [|by vm_compute in Hstep].
  destruct (writes_only_dirty_frames 2 4 DiskManager.empty (OpFetchPage 7)
              pool2_dirty_victim s' pool2_dirty_victim_reachable Hstep)
    as (l & Hl & _).
  exists s', l. split; [done|exact Hl].
Defined.
